(** * SummarizableObject: a summarizable key-value channel

    Shallow embedding of
    [packages/runtime/summarizable-object/src/summarizableObject.ts]
    and of the parts of the JavaScript platform it runs on (Map, ordinary
    objects, JSON.stringify, JSON.parse), followed by the properties the
    design document states about it. *)

From Stdlib Require Import ZArith NArith List String Ascii Bool Lia Arith.
From Stdlib Require Import DecimalString DecimalFacts DecimalPos DecimalN.
From Stdlib Require Import Permutation.
Import ListNotations.
Open Scope string_scope.

(** ** Completions and the method monad

    A JavaScript call either returns normally or throws.  A method of an
    object additionally reads and writes the fields of [this]; a throw does
    not roll back writes made before it, so the state is returned on both
    paths. *)

Inductive JsError : Type :=
| Error (message : string)        (* new Error(message) *)
| SyntaxError (message : string)  (* thrown by JSON.parse *)
| TypeError (message : string)    (* thrown by Object.entries(null) *)
| Rejected (reason : string).     (* a rejected promise, e.g. of the storage service *)

Inductive completion (A : Type) : Type :=
| Normal (a : A)
| Throw (e : JsError).
Arguments Normal {A} a.
Arguments Throw {A} e.

Definition method (S A : Type) : Type := S -> completion A * S.

Definition ret {S A} (a : A) : method S A := fun s => (Normal a, s).
Definition throw {S A} (e : JsError) : method S A := fun s => (Throw e, s).
Definition bind {S A B} (m : method S A) (k : A -> method S B) : method S B :=
  fun s => match m s with
           | (Normal a, s') => k a s'
           | (Throw e, s') => (Throw e, s')
           end.
Definition lift {S A} (c : completion A) : method S A := fun s => (c, s).

Declare Scope method_scope.
Delimit Scope method_scope with method.
Notation "x <- m ;; k" := (bind m (fun x => k))
  (at level 61, m at next level, right associativity) : method_scope.
Notation "m ;; k" := (bind m (fun _ => k))
  (at level 61, right associativity) : method_scope.

(** [for (const x of xs) body(x)] *)
Fixpoint for_of {S A} (xs : list A) (body : A -> method S unit) : method S unit :=
  match xs with
  | [] => ret tt
  | x :: rest => bind (body x) (fun _ => for_of rest body)
  end.

(** ** JavaScript Map

    [Map<string, V>] keeps its entries in insertion order; [set] on a key that
    is already present overwrites the value and keeps the entry's position. *)

Module JsMap.
Section JsMap.
Variable V : Type.

Definition t : Type := list (string * V).

Definition empty : t := [].

Fixpoint get (key : string) (m : t) : option V :=
  match m with
  | [] => None
  | (k, v) :: rest => if String.eqb key k then Some v else get key rest
  end.

Fixpoint has (key : string) (m : t) : bool :=
  match m with
  | [] => false
  | (k, _) :: rest => if String.eqb key k then true else has key rest
  end.

Fixpoint set (key : string) (value : V) (m : t) : t :=
  match m with
  | [] => [(key, value)]
  | (k, v) :: rest =>
      if String.eqb key k then (k, value) :: rest
      else (k, v) :: set key value rest
  end.

Definition keys (m : t) : list string := map fst m.
End JsMap.
Arguments empty {V}.
Arguments get {V} key m.
Arguments has {V} key m.
Arguments set {V} key value m.
Arguments keys {V} m.
End JsMap.

(** ** Numbers

    A JavaScript number is an IEEE-754 double.  The development never computes
    with numbers: it only prints them (JSON.stringify) and reads them back
    (JSON.parse).  [NumberCodec] is that interface; [number] stands for the
    finite numbers (the ones JSON can write).  [parse_number] reads the
    longest JSON number literal at the head of a text and returns its value
    and the remaining text. *)

Class NumberCodec : Type := {
  number : Type;
  Number_toString : number -> string;
  parse_number : string -> option (number * string)
}.

(** ** Decimal index keys *)

Definition index_to_string (n : N) : string :=
  NilZero.string_of_uint (N.to_uint n).

(** An array index is a property key that is the canonical decimal form of an
    integer in [0, 2^32 - 2]. *)
Definition array_index (key : string) : option N :=
  match NilZero.uint_of_string key with
  | Some d =>
      let n := N.of_uint d in
      if String.eqb (index_to_string n) key && (n <=? 4294967294)%N
      then Some n else None
  | None => None
  end.

(** ** JSON values and ordinary objects *)

Section Values.
Context {NC : NumberCodec}.

(** The JSON value model.  An object is the list of its own enumerable
    properties in the order [OrdinaryOwnPropertyKeys] reports them.  A string
    stands for well-formed Unicode text and is given by the bytes of its
    UTF-8 form. *)
Unset Elimination Schemes.
Inductive Jsonable : Type :=
| JNull
| JBool (b : bool)
| JNumber (n : number)
| JString (s : string)
| JArray (elements : list Jsonable)
| JObject (properties : list (string * Jsonable)).
Set Elimination Schemes.

Definition properties_of : Type := list (string * Jsonable).

(** Overwrite the value of an existing own property; its position stays. *)
Fixpoint replace_property (key : string) (value : Jsonable)
         (ps : properties_of) : properties_of :=
  match ps with
  | [] => []
  | (k, v) :: rest =>
      if String.eqb key k then (k, value) :: rest
      else (k, v) :: replace_property key value rest
  end.

(** Place a new array-index key: index keys come first, ascending. *)
Fixpoint insert_index (i : N) (key : string) (value : Jsonable)
         (ps : properties_of) : properties_of :=
  match ps with
  | [] => [(key, value)]
  | (k, v) :: rest =>
      match array_index k with
      | Some j => if (i <? j)%N then (key, value) :: ps
                  else (k, v) :: insert_index i key value rest
      | None => (key, value) :: ps
      end
  end.

Definition add_property (key : string) (value : Jsonable)
           (ps : properties_of) : properties_of :=
  match array_index key with
  | Some i => insert_index i key value ps
  | None => (ps ++ [(key, value)])%list
  end.

(** [CreateDataProperty(O, key, value)]: what JSON.parse uses to build an
    object. *)
Definition CreateDataProperty (key : string) (value : Jsonable)
           (ps : properties_of) : properties_of :=
  if JsMap.has key ps then replace_property key value ps
  else add_property key value ps.

(** [O[key] = value] on an ordinary object whose prototype chain ends in
    Object.prototype.  An own property is overwritten.  Otherwise the key
    ["__proto__"] finds the inherited accessor of Object.prototype, whose
    setter changes the prototype (or ignores a primitive) and creates no own
    property; every other key becomes a new own data property. *)
Definition assign_property (key : string) (value : Jsonable)
           (ps : properties_of) : properties_of :=
  if JsMap.has key ps then replace_property key value ps
  else if String.eqb key "__proto__" then ps
  else add_property key value ps.

(** ** JSON.stringify *)

Definition double_quote : ascii := "034"%char.

Definition hex_digit (n : N) : ascii :=
  if (n <? 10)%N then ascii_of_N (48 + n)%N else ascii_of_N (87 + n)%N.

(** [\uXXXX] with lowercase digits, for a code unit below 256. *)
Definition unicode_escape (c : ascii) : string :=
  let n := N_of_ascii c in
  "\u00" ++ String (hex_digit (n / 16)%N) (String (hex_digit (n mod 16)%N) "").

Definition quote_char (c : ascii) : string :=
  match N_of_ascii c with
  | 8%N => "\b"
  | 9%N => "\t"
  | 10%N => "\n"
  | 12%N => "\f"
  | 13%N => "\r"
  | 34%N => String "\" (String double_quote "")
  | 92%N => "\\"
  | n => if (n <? 32)%N then unicode_escape c else String c ""
  end.

Fixpoint quote_chars (s : string) : string :=
  match s with
  | "" => ""
  | String c rest => quote_char c ++ quote_chars rest
  end.

Definition QuoteJSONString (s : string) : string :=
  String double_quote (quote_chars s ++ String double_quote "").

(** [SerializeJSONProperty] without replacer and without indentation. *)
Fixpoint SerializeJSONProperty (v : Jsonable) : string :=
  match v with
  | JNull => "null"
  | JBool true => "true"
  | JBool false => "false"
  | JNumber n => Number_toString n
  | JString s => QuoteJSONString s
  | JArray elements =>
      "[" ++ String.concat "," (map SerializeJSONProperty elements) ++ "]"
  | JObject properties =>
      "{" ++ String.concat ","
               (map (fun p => QuoteJSONString (fst p) ++ ":"
                              ++ SerializeJSONProperty (snd p)) properties)
          ++ "}"
  end.

Definition JSON_stringify (v : Jsonable) : string := SerializeJSONProperty v.

(** ** JSON.parse

    Texts are strings of bytes: a JavaScript string is represented by the
    bytes of its UTF-8 form, so a character above U+007F is a run of bytes
    above 127, which the JSON grammar passes through unchanged. *)

Definition is_whitespace (c : ascii) : bool :=
  match N_of_ascii c with
  | 9%N | 10%N | 13%N | 32%N => true
  | _ => false
  end.

Fixpoint skip_whitespace (s : string) : string :=
  match s with
  | "" => ""
  | String c rest => if is_whitespace c then skip_whitespace rest else s
  end.

Definition hex_value (c : ascii) : option N :=
  let n := N_of_ascii c in
  if (48 <=? n)%N && (n <=? 57)%N then Some (n - 48)%N
  else if (65 <=? n)%N && (n <=? 70)%N then Some (n - 55)%N
  else if (97 <=? n)%N && (n <=? 102)%N then Some (n - 87)%N
  else None.

(** UTF-8 form of a code point; a lone surrogate half gets the three-byte
    form of its own value. *)
Definition utf8_encode (cp : N) : string :=
  let byte (n : N) := ascii_of_N n in
  if (cp <? 128)%N then String (byte cp) ""
  else if (cp <? 2048)%N then
    String (byte (192 + cp / 64)%N) (String (byte (128 + cp mod 64)%N) "")
  else if (cp <? 65536)%N then
    String (byte (224 + cp / 4096)%N)
      (String (byte (128 + (cp / 64) mod 64)%N)
         (String (byte (128 + cp mod 64)%N) ""))
  else
    String (byte (240 + cp / 262144)%N)
      (String (byte (128 + (cp / 4096) mod 64)%N)
         (String (byte (128 + (cp / 64) mod 64)%N)
            (String (byte (128 + cp mod 64)%N) ""))).

Definition read_hex4 (s : string) : option (N * string) :=
  match s with
  | String h1 (String h2 (String h3 (String h4 rest))) =>
      match hex_value h1, hex_value h2, hex_value h3, hex_value h4 with
      | Some a, Some b, Some c, Some d =>
          Some ((((a * 16 + b) * 16 + c) * 16 + d)%N, rest)
      | _, _, _, _ => None
      end
  | _ => None
  end.

Definition is_high_surrogate (u : N) : bool :=
  (55296 <=? u)%N && (u <=? 56319)%N.
Definition is_low_surrogate (u : N) : bool :=
  (56320 <=? u)%N && (u <=? 57343)%N.

Definition read_low_surrogate (s : string) : option (N * string) :=
  match s with
  | String c1 (String c2 rest) =>
      if Ascii.eqb c1 "\" && Ascii.eqb c2 "u" then
        match read_hex4 rest with
        | Some (u, rest') =>
            if is_low_surrogate u then Some (u, rest') else None
        | None => None
        end
      else None
  | _ => None
  end.

Definition simple_escape (e : ascii) : option ascii :=
  match N_of_ascii e with
  | 34%N => Some double_quote
  | 92%N => Some "\"%char
  | 47%N => Some "/"%char
  | 98%N => Some (ascii_of_N 8)
  | 102%N => Some (ascii_of_N 12)
  | 110%N => Some (ascii_of_N 10)
  | 114%N => Some (ascii_of_N 13)
  | 116%N => Some (ascii_of_N 9)
  | _ => None
  end.

(** The escape after a backslash: its decoded characters and the rest. *)
Definition read_escape (s : string) : option (string * string) :=
  match s with
  | "" => None
  | String e rest =>
      match simple_escape e with
      | Some c => Some (String c "", rest)
      | None =>
          if Ascii.eqb e "u" then
            match read_hex4 rest with
            | Some (u, rest') =>
                if is_high_surrogate u then
                  match read_low_surrogate rest' with
                  | Some (lo, rest'') =>
                      Some (utf8_encode
                              (65536 + (u - 55296) * 1024 + (lo - 56320))%N,
                            rest'')
                  | None => Some (utf8_encode u, rest')
                  end
                else Some (utf8_encode u, rest')
            | None => None
            end
          else None
      end
  end.

Definition prepend (p : string) (r : option (string * string))
  : option (string * string) :=
  match r with
  | Some (s, rest) => Some (p ++ s, rest)
  | None => None
  end.

(** The characters of a string literal after its opening quote, up to and
    including the closing quote. *)
Fixpoint lex_chars (fuel : nat) (s : string) : option (string * string) :=
  match fuel with
  | O => None
  | S fuel' =>
      match s with
      | "" => None
      | String c rest =>
          if Ascii.eqb c double_quote then Some ("", rest)
          else if Ascii.eqb c "\" then
            match read_escape rest with
            | Some (decoded, rest') => prepend decoded (lex_chars fuel' rest')
            | None => None
            end
          else if (N_of_ascii c <? 32)%N then None
          else prepend (String c "") (lex_chars fuel' rest)
      end
  end.

Definition lex_string (s : string) : option (string * string) :=
  lex_chars (String.length s) s.

(** [expect word s]: [s] without the prefix [word], if it has it. *)
Fixpoint expect (word s : string) : option string :=
  match word, s with
  | "", _ => Some s
  | String w word', String c rest =>
      if Ascii.eqb w c then expect word' rest else None
  | String _ _, "" => None
  end.

Fixpoint parse_value (fuel : nat) (s : string) : option (Jsonable * string) :=
  match fuel with
  | O => None
  | S fuel' =>
      match skip_whitespace s with
      | "" => None
      | String c rest =>
          if Ascii.eqb c "{" then
            match skip_whitespace rest with
            | String c' rest' =>
                if Ascii.eqb c' "}" then Some (JObject [], rest')
                else parse_members fuel' rest []
            | "" => None
            end
          else if Ascii.eqb c "[" then
            match skip_whitespace rest with
            | String c' rest' =>
                if Ascii.eqb c' "]" then Some (JArray [], rest')
                else parse_elements fuel' rest []
            | "" => None
            end
          else if Ascii.eqb c double_quote then
            match lex_string rest with
            | Some (str, rest') => Some (JString str, rest')
            | None => None
            end
          else if Ascii.eqb c "t" then
            option_map (pair (JBool true)) (expect "rue" rest)
          else if Ascii.eqb c "f" then
            option_map (pair (JBool false)) (expect "alse" rest)
          else if Ascii.eqb c "n" then
            option_map (pair JNull) (expect "ull" rest)
          else
            match parse_number (String c rest) with
            | Some (n, rest') => Some (JNumber n, rest')
            | None => None
            end
      end
  end
with parse_elements (fuel : nat) (s : string) (acc : list Jsonable)
     : option (Jsonable * string) :=
  match fuel with
  | O => None
  | S fuel' =>
      match parse_value fuel' s with
      | Some (v, rest) =>
          match skip_whitespace rest with
          | String c rest' =>
              if Ascii.eqb c "," then parse_elements fuel' rest' (v :: acc)
              else if Ascii.eqb c "]" then Some (JArray (rev (v :: acc)), rest')
              else None
          | "" => None
          end
      | None => None
      end
  end
with parse_members (fuel : nat) (s : string) (acc : properties_of)
     : option (Jsonable * string) :=
  match fuel with
  | O => None
  | S fuel' =>
      match skip_whitespace s with
      | String q rest =>
          if Ascii.eqb q double_quote then
            match lex_string rest with
            | Some (key, rest1) =>
                match skip_whitespace rest1 with
                | String c rest2 =>
                    if Ascii.eqb c ":" then
                      match parse_value fuel' rest2 with
                      | Some (v, rest3) =>
                          let acc' := CreateDataProperty key v acc in
                          match skip_whitespace rest3 with
                          | String d rest4 =>
                              if Ascii.eqb d "," then
                                parse_members fuel' rest4 acc'
                              else if Ascii.eqb d "}" then
                                Some (JObject acc', rest4)
                              else None
                          | "" => None
                          end
                      | None => None
                      end
                    else None
                | "" => None
                end
            | None => None
            end
          else None
      | "" => None
      end
  end.

(** [JSON.parse(text)] without reviver.  Each call of the three functions
    above reads at least one character every second step, so twice the
    length of the text is fuel enough ([parse_fuel_enough] below). *)
Definition JSON_parse (text : string) : completion Jsonable :=
  match parse_value (2 * String.length text + 2) text with
  | Some (v, rest) =>
      match skip_whitespace rest with
      | "" => Normal v
      | String _ _ => Throw (SyntaxError "Unexpected token in JSON")
      end
  | None => Throw (SyntaxError "Unexpected token in JSON")
  end.

(** ** Object.entries *)

Fixpoint indexed {A} (i : N) (xs : list A) : list (string * A) :=
  match xs with
  | [] => []
  | x :: rest => (index_to_string i, x) :: indexed (N.succ i) rest
  end.

(** Length in bytes of the UTF-8 sequence that a lead byte opens. *)
Definition utf8_sequence_length (lead : ascii) : nat :=
  let n := N_of_ascii lead in
  if (n <? 192)%N then 1 else if (n <? 224)%N then 2
  else if (n <? 240)%N then 3 else 4.

(** The UTF-16 code units of one character given by its UTF-8 sequence: a
    character beyond U+FFFF is two surrogate halves. *)
Definition units_of_sequence (ch : string) : list string :=
  match ch with
  | String b0 (String b1 (String b2 (String b3 ""))) =>
      let cp := ((N_of_ascii b0 mod 8) * 262144 + (N_of_ascii b1 mod 64) * 4096
                 + (N_of_ascii b2 mod 64) * 64 + N_of_ascii b3 mod 64)%N in
      [utf8_encode (55296 + (cp - 65536) / 1024)%N;
       utf8_encode (56320 + (cp - 65536) mod 1024)%N]
  | _ => [ch]
  end.

Fixpoint code_units_from (fuel : nat) (s : string) : list string :=
  match fuel with
  | O => []
  | S fuel' =>
      match s with
      | "" => []
      | String lead _ =>
          let k := utf8_sequence_length lead in
          (units_of_sequence (substring 0 k s)
           ++ code_units_from fuel' (substring k (String.length s - k) s))%list
      end
  end.

Definition code_units (s : string) : list string :=
  code_units_from (String.length s) s.

(** [Object.entries(value)]: the own enumerable string-keyed properties of
    [ToObject(value)]. *)
Definition Object_entries (v : Jsonable)
  : completion (list (string * Jsonable)) :=
  match v with
  | JNull => Throw (TypeError "Cannot convert undefined or null to object")
  | JBool _ => Normal []
  | JNumber _ => Normal []
  | JString s => Normal (indexed 0 (map JString (code_units s)))
  | JArray elements => Normal (indexed 0 elements)
  | JObject properties => Normal properties
  end.
End Values.

(** ** A number codec for whole numbers

    Used to run the model on concrete inputs.  It prints and reads the whole
    numbers exactly as JavaScript does for integers of magnitude below 2^53;
    a literal with a fraction or an exponent is not a whole-number literal
    and is not read by this codec. *)

Fixpoint digits_prefix (s : string) : string * string :=
  match s with
  | "" => ("", "")
  | String c rest =>
      if (48 <=? N_of_ascii c)%N && (N_of_ascii c <=? 57)%N
      then let (ds, rest') := digits_prefix rest in (String c ds, rest')
      else ("", s)
  end.

Definition continues_number (s : string) : bool :=
  match s with
  | String c _ => Ascii.eqb c "." || Ascii.eqb c "e" || Ascii.eqb c "E"
  | "" => false
  end.

Definition parse_natural (s : string) : option (N * string) :=
  match s with
  | String c rest =>
      if Ascii.eqb c "0" then
        if continues_number rest then None else Some (0%N, rest)
      else
        let (ds, rest') := digits_prefix s in
        match NilZero.uint_of_string ds with
        | Some d => if continues_number rest' then None
                    else Some (N.of_uint d, rest')
        | None => None
        end
  | "" => None
  end.

Definition parse_integer (s : string) : option (Z * string) :=
  match s with
  | String c rest =>
      if Ascii.eqb c "-" then
        match parse_natural rest with
        | Some (n, rest') => Some ((- Z.of_N n)%Z, rest')
        | None => None
        end
      else
        match parse_natural s with
        | Some (n, rest') => Some (Z.of_N n, rest')
        | None => None
        end
  | "" => None
  end.

Definition integer_to_string (z : Z) : string :=
  NilZero.string_of_int (Z.to_int z).

#[export] Instance IntegerCodec : NumberCodec := {|
  number := Z;
  Number_toString := integer_to_string;
  parse_number := parse_integer
|}.

(** ** Transport encoding

    The storage layer hands blobs over as base64 of the UTF-8 text. *)

Module Base64.
Definition digit (n : N) : ascii :=
  if (n <? 26)%N then ascii_of_N (65 + n)
  else if (n <? 52)%N then ascii_of_N (71 + n)
  else if (n <? 62)%N then ascii_of_N (n - 4)
  else if (n =? 62)%N then "+"%char else "/"%char.

Definition value (c : ascii) : option N :=
  let n := N_of_ascii c in
  if (65 <=? n)%N && (n <=? 90)%N then Some (n - 65)%N
  else if (97 <=? n)%N && (n <=? 122)%N then Some (n - 71)%N
  else if (48 <=? n)%N && (n <=? 57)%N then Some (n + 4)%N
  else if (n =? 43)%N then Some 62%N
  else if (n =? 47)%N then Some 63%N
  else None.

Definition pad : ascii := "="%char.

Fixpoint encode (bytes : string) : string :=
  match bytes with
  | "" => ""
  | String a "" =>
      let n := N_of_ascii a in
      String (digit (n / 4)) (String (digit ((n mod 4) * 16))
        (String pad (String pad "")))
  | String a (String b "") =>
      let n := (N_of_ascii a * 256 + N_of_ascii b)%N in
      String (digit (n / 1024)) (String (digit ((n / 16) mod 64))
        (String (digit ((n mod 16) * 4)) (String pad "")))
  | String a (String b (String c rest)) =>
      let n := (N_of_ascii a * 65536 + N_of_ascii b * 256 + N_of_ascii c)%N in
      String (digit (n / 262144)) (String (digit ((n / 4096) mod 64))
        (String (digit ((n / 64) mod 64)) (String (digit (n mod 64))
          (encode rest))))
  end.

Definition is_empty (s : string) : bool :=
  match s with "" => true | String _ _ => false end.

(** Strict decoding: groups of four digits, padding only in the last
    group. *)
Fixpoint decode (text : string) : option string :=
  match text with
  | "" => Some ""
  | String c1 (String c2 (String c3 (String c4 rest))) =>
      match value c1, value c2 with
      | Some v1, Some v2 =>
          let b1 := ascii_of_N (v1 * 4 + v2 / 16) in
          if Ascii.eqb c3 pad then
            if Ascii.eqb c4 pad && is_empty rest then Some (String b1 "")
            else None
          else
            match value c3 with
            | Some v3 =>
                let b2 := ascii_of_N ((v2 mod 16) * 16 + v3 / 4) in
                if Ascii.eqb c4 pad then
                  if is_empty rest then Some (String b1 (String b2 ""))
                  else None
                else
                  match value c4, decode rest with
                  | Some v4, Some bytes =>
                      let b3 := ascii_of_N ((v3 mod 4) * 64 + v4) in
                      Some (String b1 (String b2 (String b3 bytes)))
                  | _, _ => None
                  end
            | None => None
            end
      | _, _ => None
      end
  | _ => None
  end.
End Base64.

Module Utf8.
Definition between (lo hi : N) (c : ascii) : bool :=
  (lo <=? N_of_ascii c)%N && (N_of_ascii c <=? hi)%N.

Definition continuation : ascii -> bool := between 128 191.

(** Well-formed UTF-8 byte sequences (Unicode, table 3-7). *)
Fixpoint valid (bytes : string) : bool :=
  match bytes with
  | "" => true
  | String b0 rest =>
      let n := N_of_ascii b0 in
      if (n <? 128)%N then valid rest
      else if (n <? 194)%N then false
      else if (n <? 224)%N then
        match rest with
        | String b1 r => continuation b1 && valid r
        | _ => false
        end
      else if (n <? 240)%N then
        match rest with
        | String b1 (String b2 r) =>
            (if (n =? 224)%N then between 160 191 b1
             else if (n =? 237)%N then between 128 159 b1
             else continuation b1)
            && continuation b2 && valid r
        | _ => false
        end
      else if (n <? 245)%N then
        match rest with
        | String b1 (String b2 (String b3 r)) =>
            (if (n =? 240)%N then between 144 191 b1
             else if (n =? 244)%N then between 128 143 b1
             else continuation b1)
            && continuation b2 && continuation b3 && valid r
        | _ => false
        end
      else false
  end.
End Utf8.

(** What the storage layer stores for a blob whose contents is [text]. *)
Definition toBase64 (text : string) : string := Base64.encode text.

(** Modelled from the spec: [fromBase64ToUtf8] of the common-utils package,
    which is not part of the sources at hand.  The design document has load
    decode the transport encoding symmetrically to the way the blob was
    encoded and fail when the blob is not valid transport-encoded text, so
    the decoder is strict: the input must be base64 and the bytes must be
    UTF-8. *)
Definition fromBase64ToUtf8 (input : string) : completion string :=
  match Base64.decode input with
  | Some bytes =>
      if Utf8.valid bytes then Normal bytes
      else Throw (Error "blob is not UTF-8 text")
  | None => Throw (Error "blob is not base64 text")
  end.

(** ** Protocol definitions *)

(** Modelled from the spec: the declarations of the protocol-definitions and
    runtime-definitions packages ([FileMode], [TreeEntry], [ITree],
    [IObjectStorageService]) are not part of the sources at hand; the shapes
    below follow the snapshot tree format of the design document and the way
    the class uses them. *)
Inductive FileMode : Type := File | Directory | Executable | Symlink.

Inductive TreeEntry : Type := Blob | Commit | Tree.

(** [TreeEntry[TreeEntry.Blob]]: the reverse mapping of a numeric enum gives
    the member's name. *)
Definition TreeEntry_name (e : TreeEntry) : string :=
  match e with Blob => "Blob" | Commit => "Commit" | Tree => "Tree" end.

Record IBlob : Type := { contents : string; encoding : string }.

Inductive ITree : Type :=
| MkTree (entries : list ITreeEntry) (id : option string)
with ITreeEntry : Type :=
| MkEntry (mode : FileMode) (path : string) (type : string) (value : EntryValue)
with EntryValue : Type :=
| BlobValue (blob : IBlob)
| CommitValue (commit : string)
| TreeValue (tree : ITree).

Definition tree_entries (t : ITree) : list ITreeEntry :=
  match t with MkTree es _ => es end.
Definition tree_id (t : ITree) : option string :=
  match t with MkTree _ i => i end.

(** [read(path)] resolves to the base64 text of the blob or rejects. *)
Record IObjectStorageService : Type := { read : string -> completion string }.

(** ** The class SummarizableObject *)

Definition snapshotFileName : string := "header".

Module SummarizableObject.

(** Modelled from the spec: the dirty flag lives in the shared-object base
    class and the hosting runtime, which are not part of the sources at hand;
    the design document gives every store a boolean flag that is false at
    construction and that [dirty()] sets.  The other field, [data], is the
    private Map of the class. *)
Record t (V : Type) : Type := {
  data : JsMap.t V;
  isDirty : bool
}.
Arguments data {V} _.
Arguments isDirty {V} _.

Section Methods.
(** TypeScript types are erased at run time: the Map stores whatever value
    it is handed, so the accessors are written for any type of values. *)
Variable V : Type.
(** The message type is declared in the protocol-definitions package. *)
Variable ISequencedDocumentMessage : Type.

Local Open Scope method_scope.

(** [new SummarizableObject(id, runtime, attributes)] *)
Definition create : t V := {| data := JsMap.empty; isDirty := false |}.

(** [this.data.set(key, value)] *)
Definition data_set (key : string) (value : V) : method (t V) unit :=
  fun this =>
    (Normal tt,
     {| data := JsMap.set key value (data this); isDirty := isDirty this |}).

(** Modelled from the spec: [this.dirty()] of the base class marks the
    store dirty. *)
Definition dirty : method (t V) unit :=
  fun this => (Normal tt, {| data := data this; isDirty := true |}).

Definition get (key : string) : method (t V) (option V) :=
  fun this => (Normal (JsMap.get key (data this)), this).

Definition set (key : string) (value : V) : method (t V) unit :=
  data_set key value ;;
  dirty.

Definition processCore (message : ISequencedDocumentMessage) (local : bool)
  : method (t V) unit :=
  throw (Error "Summarizable object should not generate any ops.").

Definition onConnect : method (t V) unit := ret tt.
Definition registerCore : method (t V) unit := ret tt.
Definition onDisconnect : method (t V) unit := ret tt.
End Methods.
Arguments create {V}.
Arguments data_set {V} key value _.
Arguments dirty {V} _.
Arguments get {V} key _.
Arguments set {V} key value _.
Arguments processCore {V ISequencedDocumentMessage} message local _.

Section Summary.
Context {NC : NumberCodec}.
Local Open Scope method_scope.

(** [this.data.forEach((value, key) => { contentsBlob[key] = value; })]
    starting from [contentsBlob = {}]. *)
Definition contentsBlob (m : JsMap.t Jsonable) : properties_of :=
  fold_left (fun blob entry => assign_property (fst entry) (snd entry) blob)
            m [].

Definition snapshot : method (t Jsonable) ITree :=
  fun this =>
    let tree :=
      MkTree
        [ MkEntry File snapshotFileName (TreeEntry_name Blob)
            (BlobValue
               {| contents := JSON_stringify (JObject (contentsBlob (data this)));
                  encoding := "utf-8" |}) ]
        None in
    (Normal tree, this).

Definition loadCore (branchId : string) (storage : IObjectStorageService)
  : method (t Jsonable) unit :=
  rawContent <- lift (read storage snapshotFileName) ;;
  text <- lift (fromBase64ToUtf8 rawContent) ;;
  contents <- lift (JSON_parse text) ;;
  entries <- lift (Object_entries contents) ;;
  for_of entries (fun entry => data_set (fst entry) (snd entry)).
End Summary.
End SummarizableObject.

(** ** Vocabulary of the properties *)

Definition result {S A} (m : method S A) (s : S) : completion A := fst (m s).
Definition state_after {S A} (m : method S A) (s : S) : S := snd (m s).

(** JavaScript values at large: what a caller can hand to [set] when the
    static type is not enforced. *)
Unset Elimination Schemes.
Inductive JsValue : Type :=
| VUndefined
| VNull
| VBool (b : bool)
| VNumber (z : Z)
| VString (s : string)
| VFunction (name : string)
| VArray (elements : list JsValue)
| VObject (properties : list (string * JsValue)).
Set Elimination Schemes.

(** Membership in the JSON value model: null, booleans, numbers, strings,
    arrays and string-keyed objects of such, recursively. *)
Fixpoint json_representable (v : JsValue) : bool :=
  match v with
  | VUndefined => false
  | VFunction _ => false
  | VNull | VBool _ | VNumber _ | VString _ => true
  | VArray elements => forallb json_representable elements
  | VObject properties =>
      forallb (fun p => json_representable (snd p)) properties
  end.

(** A sequence of [set] calls, oldest first. *)
Fixpoint set_all {V} (calls : list (string * V)) (this : SummarizableObject.t V)
  : SummarizableObject.t V :=
  match calls with
  | [] => this
  | (key, value) :: rest =>
      set_all rest (state_after (SummarizableObject.set key value) this)
  end.

(** The value of the most recent call for [key], if there is one. *)
Fixpoint last_set {V} (key : string) (calls : list (string * V)) : option V :=
  match calls with
  | [] => None
  | (k, v) :: rest =>
      match last_set key rest with
      | Some v' => Some v'
      | None => if String.eqb key k then Some v else None
      end
  end.

(** A sequence of [get] calls. *)
Fixpoint get_all {V} (keys : list string) (this : SummarizableObject.t V)
  : SummarizableObject.t V :=
  match keys with
  | [] => this
  | key :: rest => get_all rest (state_after (SummarizableObject.get key) this)
  end.

(** The blob an entry of a tree holds under [path]. *)
Fixpoint blob_at (path : string) (es : list ITreeEntry) : option IBlob :=
  match es with
  | [] => None
  | MkEntry _ p _ (BlobValue b) :: rest =>
      if String.eqb path p then Some b else blob_at path rest
  | _ :: rest => blob_at path rest
  end.

Definition blob_contents (c : completion ITree) : option string :=
  match c with
  | Normal tree => option_map contents (blob_at snapshotFileName (tree_entries tree))
  | Throw _ => None
  end.

(** A storage service that holds the blobs of [tree], transport-encoded. *)
Definition storage_holding (tree : ITree) : IObjectStorageService :=
  {| read := fun path =>
       match blob_at path (tree_entries tree) with
       | Some b => Normal (toBase64 (contents b))
       | None => Throw (Rejected "blob not found")
       end |}.

(** A storage service whose every read resolves to [raw]. *)
Definition storage_returning (raw : string) : IObjectStorageService :=
  {| read := fun _ => Normal raw |}.

(** The ways in which load finds the persisted blob unusable. *)
Section Unreadable.
Context {NC : NumberCodec}.

Inductive unreadable (storage : IObjectStorageService) : Prop :=
| missing_blob e :
    read storage snapshotFileName = Throw e -> unreadable storage
| not_transport_text raw e :
    read storage snapshotFileName = Normal raw ->
    fromBase64ToUtf8 raw = Throw e -> unreadable storage
| not_json_text raw text e :
    read storage snapshotFileName = Normal raw ->
    fromBase64ToUtf8 raw = Normal text ->
    JSON_parse text = Throw e -> unreadable storage
| json_null raw text :
    read storage snapshotFileName = Normal raw ->
    fromBase64ToUtf8 raw = Normal text ->
    JSON_parse text = Normal JNull -> unreadable storage.
End Unreadable.

(** ** JavaScript values among the terms of [Jsonable]

    A term of [Jsonable] can list the properties of an object in any order and
    more than once; an object of the language cannot.  [normalize] defines the
    properties one after the other, which removes duplicates and puts the keys
    in own-property order; a term stands for a value of the language when
    this changes nothing. *)

Section Canonical.
Context {NC : NumberCodec}.

Fixpoint normalize (v : Jsonable) : Jsonable :=
  match v with
  | JArray elements => JArray (map normalize elements)
  | JObject properties =>
      JObject (fold_left
                 (fun acc p => CreateDataProperty (fst p) (normalize (snd p)) acc)
                 properties [])
  | _ => v
  end.

Definition is_value (v : Jsonable) : Prop := normalize v = v.

(** Every string and every key in the value is well-formed UTF-8. *)
Fixpoint utf8_strings (v : Jsonable) : bool :=
  match v with
  | JString s => Utf8.valid s
  | JArray elements => forallb utf8_strings elements
  | JObject properties =>
      forallb (fun p => Utf8.valid (fst p) && utf8_strings (snd p)) properties
  | _ => true
  end.

(** Fuel that [parse_value] needs for the text of a value. *)
Fixpoint size (v : Jsonable) : nat :=
  match v with
  | JArray elements => S (fold_right (fun e n => S (size e + n)) 0 elements)
  | JObject properties =>
      S (fold_right (fun p n => S (size (snd p) + n)) 0 properties)
  | _ => 1
  end.
End Canonical.

Definition is_digit (c : ascii) : bool :=
  (48 <=? N_of_ascii c)%N && (N_of_ascii c <=? 57)%N.

Fixpoint ascii_only (s : string) : bool :=
  match s with
  | "" => true
  | String c rest => (N_of_ascii c <? 128)%N && ascii_only rest
  end.

(** What can follow a number in a JSON text written without whitespace. *)
Definition number_boundary (s : string) : bool :=
  match s with
  | "" => true
  | String c _ => Ascii.eqb c "," || Ascii.eqb c "]" || Ascii.eqb c "}"
  end.

(** What is assumed of a number codec: a number prints as a literal of ASCII
    characters that starts with a digit or a minus sign, reading the literal
    gives the number back, and what is left after reading a number is no
    longer than the text. *)
Class NumberCodecLaws (NC : NumberCodec) : Prop := {
  toString_head :
    forall n : number, exists c rest,
      Number_toString n = String c rest
      /\ (c = "-"%char \/ is_digit c = true);
  toString_ascii : forall n : number, ascii_only (Number_toString n) = true;
  parse_toString :
    forall (n : number) (tail : string),
      number_boundary tail = true ->
      parse_number (Number_toString n ++ tail) = Some (n, tail);
  parse_number_rest :
    forall (s : string) (n : number) (rest : string),
      parse_number s = Some (n, rest) -> String.length rest <= String.length s
}.

(** ** Vocabulary of the parser proofs *)

Section ParserVocabulary.
Context {NC : NumberCodec}.

(** The text of one member of an object. *)
Definition member_text (p : string * Jsonable) : string :=
  QuoteJSONString (fst p) ++ ":" ++ SerializeJSONProperty (snd p).

(** The text of a value starts with a character that is neither whitespace
    nor a closing bracket. *)
Definition opens_value (c : ascii) : Prop :=
  is_whitespace c = false /\ c <> "]"%char /\ c <> "}"%char.

(** Fuel for the elements of an array and for the members of an object. *)
Definition elements_size (elements : list Jsonable) : nat :=
  fold_right (fun e n => S (size e + n)) 0 elements.

Definition properties_size (properties : list (string * Jsonable)) : nat :=
  fold_right (fun p n => S (size (snd p) + n)) 0 properties.

(** Given fuel for it, the text of [v] before a boundary reads back as [v]
    with its objects in own-property order. *)
Definition reads_back (v : Jsonable) : Prop :=
  forall (fuel : nat) (tail : string),
    size v <= fuel ->
    number_boundary tail = true ->
    parse_value fuel (SerializeJSONProperty v ++ tail) = Some (normalize v, tail).

(** The properties [acc] after defining [properties] one after the other. *)
Definition define_all (properties acc : list (string * Jsonable))
  : list (string * Jsonable) :=
  fold_left (fun acc p => CreateDataProperty (fst p) (normalize (snd p)) acc)
            properties acc.

(** What the round trip asks of an entry: a key and strings that are
    well-formed text, and a value of the language. *)
Definition portable (p : string * Jsonable) : Prop :=
  Utf8.valid (fst p) = true /\ utf8_strings (snd p) = true /\ is_value (snd p).
End ParserVocabulary.

(** ** Own-property order *)

(** [k] may stand before [k'] among the own property keys of an object: an
    array index before a larger array index or before any other key, another
    key before any key that is not an array index. *)
Definition precedes (k k' : string) : Prop :=
  match array_index k, array_index k' with
  | Some i, Some j => (i < j)%N
  | Some _, None => True
  | None, Some _ => False
  | None, None => True
  end.

(** Own-property order: every key once, array indices ascending, then the
    other keys. *)
Fixpoint own_property_order (keys : list string) : Prop :=
  match keys with
  | [] => True
  | k :: rest =>
      ~ In k rest /\ (forall k', In k' rest -> precedes k k')
      /\ own_property_order rest
  end.

(** * Properties *)

Import SummarizableObject.

(** ** Strings *)

Lemma append_assoc (a b c : string) : (a ++ b) ++ c = a ++ (b ++ c).
Proof. induction a as [|x a IH]; simpl; [reflexivity | now rewrite IH]. Qed.

Lemma append_nil_r (a : string) : a ++ "" = a.
Proof. induction a as [|x a IH]; simpl; [reflexivity | now rewrite IH]. Qed.

Lemma length_append (a b : string) :
  String.length (a ++ b) = String.length a + String.length b.
Proof. induction a as [|x a IH]; simpl; [reflexivity | now rewrite IH]. Qed.

(** ** String literals: QuoteJSONString read back *)

Section Lexer.
Context {NC : NumberCodec}.

Lemma lex_quote_char (c : ascii) (fuel : nat) (tail : string) :
  lex_chars (S fuel) (quote_char c ++ tail)
  = prepend (String c "") (lex_chars fuel tail).
Proof.
  destruct c as [[] [] [] [] [] [] [] []]; reflexivity.
Qed.

Lemma quote_char_length (c : ascii) : 1 <= String.length (quote_char c).
Proof.
  destruct c as [[] [] [] [] [] [] [] []]; simpl; lia.
Qed.

Lemma quote_chars_length (s : string) :
  String.length s <= String.length (quote_chars s).
Proof.
  induction s as [|c s IH]; simpl; [lia|].
  rewrite length_append. pose proof (quote_char_length c). lia.
Qed.

Lemma lex_quote_chars (s : string) :
  forall (fuel : nat) (tail : string),
    String.length s < fuel ->
    lex_chars fuel (quote_chars s ++ String double_quote tail) = Some (s, tail).
Proof.
  induction s as [|c s IH]; intros fuel tail Hfuel.
  - destruct fuel; [inversion Hfuel | reflexivity].
  - destruct fuel as [|fuel]; [inversion Hfuel|].
    simpl quote_chars. rewrite append_assoc, lex_quote_char, IH.
    + reflexivity.
    + simpl in Hfuel. lia.
Qed.

Lemma lex_string_quoted (s tail : string) :
  lex_string (quote_chars s ++ String double_quote tail) = Some (s, tail).
Proof.
  unfold lex_string. apply lex_quote_chars.
  rewrite length_append. simpl. pose proof (quote_chars_length s). lia.
Qed.
End Lexer.

(** ** The parser on the text of a value *)

Section Parser.
Context {NC : NumberCodec} {laws : NumberCodecLaws NC}.

Lemma Jsonable_ind (P : Jsonable -> Prop) :
  P JNull ->
  (forall b, P (JBool b)) ->
  (forall n, P (JNumber n)) ->
  (forall s, P (JString s)) ->
  (forall elements, Forall P elements -> P (JArray elements)) ->
  (forall properties,
      Forall (fun p => P (snd p)) properties -> P (JObject properties)) ->
  forall v, P v.
Proof.
  intros Hnull Hbool Hnum Hstr Harr Hobj.
  fix self 1. intros [ | b | n | s | elements | properties].
  - exact Hnull.
  - apply Hbool.
  - apply Hnum.
  - apply Hstr.
  - apply Harr. induction elements as [|e elements IH]; constructor.
    + apply self.
    + exact IH.
  - apply Hobj. induction properties as [|[k e] properties IH]; constructor.
    + apply self.
    + exact IH.
Qed.


Lemma serialize_array elements :
  SerializeJSONProperty (JArray elements)
  = String "[" (String.concat "," (map SerializeJSONProperty elements) ++ "]").
Proof. reflexivity. Qed.

Lemma serialize_object properties :
  SerializeJSONProperty (JObject properties)
  = String "{" (String.concat "," (map member_text properties) ++ "}").
Proof. reflexivity. Qed.

Lemma concat_cons2 (sep x y : string) (l : list string) :
  String.concat sep (x :: y :: l) = x ++ sep ++ String.concat sep (y :: l).
Proof. reflexivity. Qed.

Lemma skip_whitespace_head (c : ascii) (rest : string) :
  is_whitespace c = false -> skip_whitespace (String c rest) = String c rest.
Proof. intros H. simpl. now rewrite H. Qed.


Lemma digit_cases (c : ascii) :
  is_digit c = true ->
  In c ["0"; "1"; "2"; "3"; "4"; "5"; "6"; "7"; "8"; "9"]%char.
Proof.
  destruct c as [[] [] [] [] [] [] [] []]; intros H; try discriminate H;
    simpl; tauto.
Qed.

Lemma number_head_cases (n : number) :
  exists c rest,
    Number_toString n = String c rest
    /\ In c ["-"; "0"; "1"; "2"; "3"; "4"; "5"; "6"; "7"; "8"; "9"]%char.
Proof.
  destruct (toString_head n) as (c & rest & E & [-> | Hd]).
  - exists "-"%char, rest. split; [exact E | now left].
  - exists c, rest. split; [exact E | right; now apply digit_cases].
Qed.

Lemma serialize_head (v : Jsonable) :
  exists c rest, SerializeJSONProperty v = String c rest /\ opens_value c.
Proof.
  destruct v as [ | [] | n | s | elements | properties];
    try (eexists; eexists; split; [reflexivity | repeat split; discriminate]).
  destruct (number_head_cases n) as (c & rest & E & Hc).
  exists c, rest. split; [exact E|].
  simpl in Hc. repeat destruct Hc as [<- | Hc]; try contradiction;
    repeat split; discriminate.
Qed.

Lemma parse_number_text (n : number) (fuel : nat) (tail : string) :
  number_boundary tail = true ->
  parse_value (S fuel) (Number_toString n ++ tail) = Some (JNumber n, tail).
Proof.
  intros Hb. pose proof (parse_toString n tail Hb) as Hp.
  destruct (number_head_cases n) as (c & rest & E & Hc).
  rewrite E in *. simpl in Hc.
  repeat destruct Hc as [<- | Hc]; try contradiction;
    simpl in *; rewrite Hp; reflexivity.
Qed.




Lemma parse_elements_text (elements : list Jsonable) :
  Forall reads_back elements ->
  elements <> [] ->
  forall (fuel : nat) (acc : list Jsonable) (tail : string),
    elements_size elements <= fuel ->
    parse_elements fuel
      (String.concat "," (map SerializeJSONProperty elements) ++ String "]" tail)
      acc
    = Some (JArray (rev acc ++ map normalize elements), tail).
Proof.
  induction 1 as [|v elements Hv _ IH]; intros Hne fuel acc tail Hfuel;
    [congruence|].
  destruct fuel as [|fuel]; [simpl in Hfuel; lia|].
  simpl in Hfuel.
  destruct elements as [|w elements].
  - simpl String.concat. simpl parse_elements.
    rewrite Hv by (simpl; lia || reflexivity). reflexivity.
  - change (map SerializeJSONProperty (v :: w :: elements))
      with (SerializeJSONProperty v :: SerializeJSONProperty w
              :: map SerializeJSONProperty elements).
    rewrite concat_cons2, !append_assoc. simpl parse_elements.
    rewrite Hv by (simpl; lia || reflexivity).
    change ("," ++ ?x) with (String "," x). simpl skip_whitespace. simpl.
    change (String.concat "," (SerializeJSONProperty w :: map SerializeJSONProperty elements))
      with (String.concat "," (map SerializeJSONProperty (w :: elements))).
    rewrite IH; [| discriminate | simpl in *; lia].
    simpl. rewrite <- app_assoc. reflexivity.
Qed.


Lemma parse_member_text (p : string * Jsonable) (fuel : nat) (tail : string)
      (acc : list (string * Jsonable)) (d : ascii) :
  reads_back (snd p) ->
  size (snd p) <= fuel ->
  Ascii.eqb d "," || Ascii.eqb d "}" = true ->
  parse_members (S fuel) (member_text p ++ String d tail) acc
  = let acc' := CreateDataProperty (fst p) (normalize (snd p)) acc in
    if Ascii.eqb d "," then parse_members fuel tail acc'
    else Some (JObject acc', tail).
Proof.
  intros Hv Hfuel Hd. destruct p as [k v]. unfold member_text, QuoteJSONString.
  cbn [fst snd] in *.
  change (String double_quote (quote_chars k ++ String double_quote "")
          ++ ":" ++ SerializeJSONProperty v)
    with (String double_quote
            ((quote_chars k ++ String double_quote "")
             ++ String ":" (SerializeJSONProperty v))).
  cbn [append]. rewrite !append_assoc. cbn [append].
  cbn [parse_members skip_whitespace]. 
  change (is_whitespace double_quote) with false. cbn iota.
  rewrite Ascii.eqb_refl, lex_string_quoted.
  cbn [skip_whitespace]. change (is_whitespace ":") with false. cbn iota.
  rewrite Ascii.eqb_refl.
  rewrite Hv; [| exact Hfuel |].
  - cbn zeta.
    assert (Hws : is_whitespace d = false).
    { destruct (Ascii.eqb_spec d ",") as [->|]; [reflexivity|].
      destruct (Ascii.eqb_spec d "}") as [->|]; [reflexivity|discriminate]. }
    cbn [skip_whitespace]. rewrite Hws.
    destruct (Ascii.eqb d ","); [reflexivity|].
    simpl in Hd. rewrite Hd. reflexivity.
  - simpl. destruct (Ascii.eqb d ","); [reflexivity|].
    simpl in Hd. rewrite Hd. apply orb_true_r.
Qed.

Lemma parse_members_text (properties : list (string * Jsonable)) :
  Forall (fun p => reads_back (snd p)) properties ->
  properties <> [] ->
  forall (fuel : nat) (acc : list (string * Jsonable)) (tail : string),
    properties_size properties <= fuel ->
    parse_members fuel
      (String.concat "," (map member_text properties) ++ String "}" tail) acc
    = Some (JObject (define_all properties acc), tail).
Proof.
  induction 1 as [|p properties Hp _ IH]; intros Hne fuel acc tail Hfuel;
    [congruence|].
  destruct fuel as [|fuel]; [simpl in Hfuel; lia|].
  simpl in Hfuel.
  destruct properties as [|q properties].
  - simpl String.concat.
    rewrite parse_member_text; [reflexivity | exact Hp | lia | reflexivity].
  - change (map member_text (p :: q :: properties))
      with (member_text p :: member_text q :: map member_text properties).
    rewrite concat_cons2, !append_assoc.
    change ("," ++ ?x) with (String "," x).
    rewrite parse_member_text; [| exact Hp | lia | reflexivity].
    cbn zeta. rewrite Ascii.eqb_refl.
    change (String.concat "," (member_text q :: map member_text properties))
      with (String.concat "," (map member_text (q :: properties))).
    rewrite IH; [reflexivity | discriminate | simpl in *; lia].
Qed.

(** Reading the text of a value gives the value back, its objects in
    own-property order. *)
Theorem parse_serialized (v : Jsonable) : reads_back v.
Proof.
  induction v as [ | b | n | s | elements IH | properties IH] using Jsonable_ind;
    intros fuel tail Hfuel Hb;
    (destruct fuel as [|fuel]; [simpl in Hfuel; lia|]).
  - reflexivity.
  - destruct b; reflexivity.
  - apply parse_number_text, Hb.
  - cbn [SerializeJSONProperty]. unfold QuoteJSONString.
    cbn [append]. rewrite append_assoc. cbn [append].
    cbn [parse_value skip_whitespace].
    change (is_whitespace double_quote) with false. cbn iota.
    change (Ascii.eqb double_quote "{") with false.
    change (Ascii.eqb double_quote "[") with false. cbn iota.
    rewrite Ascii.eqb_refl, lex_string_quoted. reflexivity.
  - rewrite serialize_array. cbn [append]. rewrite append_assoc. cbn [append].
    destruct elements as [|e elements]; [reflexivity|].
    cbn [parse_value skip_whitespace]. change (is_whitespace "[") with false.
    cbn iota. change (Ascii.eqb "[" "{") with false. cbn iota.
    rewrite Ascii.eqb_refl.
    destruct (serialize_head e) as (c & rest & E & Hws & Hc & _).
    assert (Hskip :
      skip_whitespace
        (String.concat "," (map SerializeJSONProperty (e :: elements))
         ++ String "]" tail)
      = String c (rest ++ match elements with
                          | [] => ""
                          | _ => "," ++ String.concat ","
                                     (map SerializeJSONProperty elements)
                          end ++ String "]" tail)).
    { destruct elements as [|e' elements].
      - simpl String.concat. rewrite E. cbn [append skip_whitespace].
        rewrite Hws. reflexivity.
      - change (map SerializeJSONProperty (e :: e' :: elements))
          with (SerializeJSONProperty e :: SerializeJSONProperty e'
                  :: map SerializeJSONProperty elements).
        rewrite concat_cons2, E. cbn [append skip_whitespace]. rewrite Hws.
        rewrite !append_assoc. reflexivity. }
    rewrite Hskip.
    destruct (Ascii.eqb_spec c "]") as [->|_]; [congruence|].
    rewrite parse_elements_text; [reflexivity | exact IH | discriminate |].
    simpl in Hfuel. unfold elements_size. simpl. lia.
  - rewrite serialize_object. cbn [append]. rewrite append_assoc. cbn [append].
    destruct properties as [|p properties]; [reflexivity|].
    cbn [parse_value skip_whitespace]. change (is_whitespace "{") with false.
    cbn iota. rewrite Ascii.eqb_refl.
    assert (Hskip :
      exists rest,
        skip_whitespace
          (String.concat "," (map member_text (p :: properties))
           ++ String "}" tail)
        = String double_quote rest).
    { destruct properties as [|p' properties].
      - simpl String.concat. unfold member_text, QuoteJSONString.
        cbn [append skip_whitespace]. eexists. reflexivity.
      - change (map member_text (p :: p' :: properties))
          with (member_text p :: member_text p' :: map member_text properties).
        rewrite concat_cons2. unfold member_text at 1, QuoteJSONString.
        cbn [append skip_whitespace]. eexists. reflexivity. }
    destruct Hskip as [rest ->].
    change (Ascii.eqb double_quote "}") with false. cbn iota.
    rewrite parse_members_text; [reflexivity | exact IH | discriminate |].
    simpl in Hfuel. unfold properties_size. simpl. lia.
Qed.
End Parser.

Section Fuel.
Context {NC : NumberCodec} {laws : NumberCodecLaws NC}.

Lemma concat_length_bound {A} (f : A -> string) (g : A -> nat) (l : list A) :
  Forall (fun x => g x <= String.length (f x)) l ->
  fold_right (fun x n => S (g x + n)) 0 l
  <= String.length (String.concat "," (map f l)) + 1.
Proof.
  induction 1 as [|x l Hx Hl IH]; [simpl; lia|].
  destruct l as [|y l].
  - simpl. lia.
  - change (map f (x :: y :: l)) with (f x :: f y :: map f l).
    rewrite concat_cons2, !length_append.
    change (String.concat "," (f y :: map f l))
      with (String.concat "," (map f (y :: l))).
    simpl in *. lia.
Qed.

Lemma size_le_length (v : Jsonable) :
  size v <= String.length (SerializeJSONProperty v).
Proof.
  induction v as [ | b | n | s | elements IH | properties IH] using Jsonable_ind.
  - simpl. lia.
  - destruct b; simpl; lia.
  - destruct (toString_head n) as (c & rest & E & _). simpl. rewrite E. simpl. lia.
  - simpl. lia.
  - rewrite serialize_array. cbn [size String.length]. rewrite length_append.
    pose proof (concat_length_bound SerializeJSONProperty size elements IH).
    simpl. lia.
  - rewrite serialize_object. cbn [size String.length]. rewrite length_append.
    assert (H : Forall (fun p => size (snd p) <= String.length (member_text p))
                       properties).
    { eapply Forall_impl; [|exact IH]. intros [k v] Hv. unfold member_text.
      rewrite !length_append. simpl in *. lia. }
    pose proof (concat_length_bound member_text (fun p => size (snd p))
                                    properties H).
    simpl. lia.
Qed.

(** [JSON.parse(JSON.stringify(v))] returns [v], its objects in own-property
    order. *)
Theorem JSON_parse_stringify (v : Jsonable) :
  JSON_parse (JSON_stringify v) = Normal (normalize v).
Proof.
  unfold JSON_parse, JSON_stringify.
  pose proof (parse_serialized v
                (2 * String.length (SerializeJSONProperty v) + 2) "") as H.
  rewrite append_nil_r in H. rewrite H; [reflexivity | | reflexivity].
  pose proof (size_le_length v). lia.
Qed.
End Fuel.

(** ** The fuel of the parser is enough for every text *)

Lemma skip_whitespace_length (s : string) :
  String.length (skip_whitespace s) <= String.length s.
Proof.
  induction s as [|c s IH]; simpl; [lia|].
  destruct (is_whitespace c); simpl; lia.
Qed.

Lemma skipped_length (s : string) (c : ascii) (rest : string) :
  skip_whitespace s = String c rest -> String.length rest < String.length s.
Proof.
  intros H. pose proof (skip_whitespace_length s) as Hl.
  rewrite H in Hl. simpl in Hl. lia.
Qed.

Lemma read_hex4_length (s : string) (u : N) (rest : string) :
  read_hex4 s = Some (u, rest) -> String.length rest <= String.length s.
Proof.
  unfold read_hex4. destruct s as [|h1 [|h2 [|h3 [|h4 r]]]]; try discriminate.
  destruct (hex_value h1), (hex_value h2), (hex_value h3), (hex_value h4);
    try discriminate.
  intros [= _ <-]. simpl. lia.
Qed.

Lemma read_low_surrogate_length (s : string) (u : N) (rest : string) :
  read_low_surrogate s = Some (u, rest) -> String.length rest <= String.length s.
Proof.
  unfold read_low_surrogate. destruct s as [|c1 [|c2 r]]; try discriminate.
  destruct (Ascii.eqb c1 "\" && Ascii.eqb c2 "u"); [|discriminate].
  destruct (read_hex4 r) as [[u' r']|] eqn:E; [|discriminate].
  apply read_hex4_length in E.
  destruct (is_low_surrogate u'); [|discriminate].
  intros [= _ <-]. simpl. lia.
Qed.

Lemma read_escape_length (s decoded rest : string) :
  read_escape s = Some (decoded, rest) -> String.length rest <= String.length s.
Proof.
  unfold read_escape. destruct s as [|e r]; [discriminate|].
  destruct (simple_escape e).
  { intros [= _ <-]. simpl. lia. }
  destruct (Ascii.eqb e "u"); [|discriminate].
  destruct (read_hex4 r) as [[u r']|] eqn:E; [|discriminate].
  apply read_hex4_length in E.
  destruct (is_high_surrogate u).
  - destruct (read_low_surrogate r') as [[lo r'']|] eqn:E'.
    + apply read_low_surrogate_length in E'.
      intros [= _ <-]. simpl. lia.
    + intros [= _ <-]. simpl. lia.
  - intros [= _ <-]. simpl. lia.
Qed.

Lemma prepend_Some (p : string) (r : option (string * string)) (x rest : string) :
  prepend p r = Some (x, rest) -> exists y, r = Some (y, rest).
Proof.
  destruct r as [[y rest']|]; simpl; [|discriminate].
  intros [= _ <-]. eauto.
Qed.

Lemma lex_chars_length (fuel : nat) :
  forall s x rest,
    lex_chars fuel s = Some (x, rest) -> String.length rest < String.length s.
Proof.
  induction fuel as [|fuel IH]; intros s x rest H; [discriminate H|].
  cbn [lex_chars] in H. destruct s as [|c s]; [discriminate H|].
  destruct (Ascii.eqb c double_quote).
  { injection H as _ <-. simpl. lia. }
  destruct (Ascii.eqb c "\").
  { destruct (read_escape s) as [[decoded s']|] eqn:E; [|discriminate H].
    apply read_escape_length in E. apply prepend_Some in H as [y H].
    apply IH in H. simpl. lia. }
  destruct (N_of_ascii c <? 32)%N; [discriminate H|].
  apply prepend_Some in H as [y H]. apply IH in H. simpl. lia.
Qed.

Lemma expect_length (word s rest : string) :
  expect word s = Some rest -> String.length rest <= String.length s.
Proof.
  revert s. induction word as [|w word IH]; intros s; simpl.
  - intros [= <-]. lia.
  - destruct s as [|c s]; [discriminate|].
    destruct (Ascii.eqb w c); [|discriminate].
    intros H. apply IH in H. simpl. lia.
Qed.

Section FuelEnough.
Context {NC : NumberCodec} {laws : NumberCodecLaws NC}.

(** Parsing returns a rest that is no longer than the text. *)
Lemma parse_rest_length (fuel : nat) :
  (forall s v rest,
      parse_value fuel s = Some (v, rest) ->
      String.length rest <= String.length s)
  /\ (forall s acc v rest,
         parse_elements fuel s acc = Some (v, rest) ->
         String.length rest <= String.length s)
  /\ (forall s acc v rest,
         parse_members fuel s acc = Some (v, rest) ->
         String.length rest <= String.length s).
Proof.
  induction fuel as [|fuel (IHv & IHe & IHm)];
    [repeat split; intros; discriminate|].
  repeat split.
  - intros s v rest H. cbn [parse_value] in H.
    destruct (skip_whitespace s) as [|c rest0] eqn:Es; [discriminate H|].
    apply skipped_length in Es.
    destruct (Ascii.eqb c "{").
    { destruct (skip_whitespace rest0) as [|c' rest1] eqn:E1; [discriminate H|].
      apply skipped_length in E1.
      destruct (Ascii.eqb c' "}"); [injection H as _ <-; lia|].
      apply IHm in H. lia. }
    destruct (Ascii.eqb c "[").
    { destruct (skip_whitespace rest0) as [|c' rest1] eqn:E1; [discriminate H|].
      apply skipped_length in E1.
      destruct (Ascii.eqb c' "]"); [injection H as _ <-; lia|].
      apply IHe in H. lia. }
    destruct (Ascii.eqb c double_quote).
    { unfold lex_string in H.
      destruct (lex_chars (String.length rest0) rest0) as [[str rest1]|] eqn:E1;
        [|discriminate H].
      apply lex_chars_length in E1. injection H as _ <-. lia. }
    destruct (Ascii.eqb c "t").
    { destruct (expect "rue" rest0) eqn:E1; [|discriminate H].
      apply expect_length in E1. injection H as _ <-. lia. }
    destruct (Ascii.eqb c "f").
    { destruct (expect "alse" rest0) eqn:E1; [|discriminate H].
      apply expect_length in E1. injection H as _ <-. lia. }
    destruct (Ascii.eqb c "n").
    { destruct (expect "ull" rest0) eqn:E1; [|discriminate H].
      apply expect_length in E1. injection H as _ <-. lia. }
    destruct (parse_number (String c rest0)) as [[n rest1]|] eqn:E1;
      [|discriminate H].
    apply parse_number_rest in E1. injection H as _ <-. simpl in E1. lia.
  - intros s acc v rest H. cbn [parse_elements] in H.
    destruct (parse_value fuel s) as [[v0 rest0]|] eqn:E0; [|discriminate H].
    apply IHv in E0.
    destruct (skip_whitespace rest0) as [|c rest1] eqn:E1; [discriminate H|].
    apply skipped_length in E1.
    destruct (Ascii.eqb c ","); [apply IHe in H; lia|].
    destruct (Ascii.eqb c "]"); [|discriminate H].
    injection H as _ <-. lia.
  - intros s acc v rest H. cbn [parse_members] in H.
    destruct (skip_whitespace s) as [|q rest0] eqn:Es; [discriminate H|].
    apply skipped_length in Es.
    destruct (Ascii.eqb q double_quote); [|discriminate H].
    unfold lex_string in H.
    destruct (lex_chars (String.length rest0) rest0) as [[key rest1]|] eqn:E1;
      [|discriminate H].
    apply lex_chars_length in E1.
    destruct (skip_whitespace rest1) as [|c rest2] eqn:E2; [discriminate H|].
    apply skipped_length in E2.
    destruct (Ascii.eqb c ":"); [|discriminate H].
    destruct (parse_value fuel rest2) as [[v0 rest3]|] eqn:E3; [|discriminate H].
    apply IHv in E3. cbv zeta in H.
    destruct (skip_whitespace rest3) as [|d rest4] eqn:E4; [discriminate H|].
    apply skipped_length in E4.
    destruct (Ascii.eqb d ","); [apply IHm in H; lia|].
    destruct (Ascii.eqb d "}"); [|discriminate H].
    injection H as _ <-. lia.
Qed.

(** Once the fuel exceeds twice the length of the text, more fuel changes
    nothing. *)
Lemma parse_fuel_stable (fuel : nat) :
  (forall s, 2 * String.length s + 1 <= fuel ->
             parse_value (S fuel) s = parse_value fuel s)
  /\ (forall s acc, 2 * String.length s + 2 <= fuel ->
                    parse_elements (S fuel) s acc = parse_elements fuel s acc)
  /\ (forall s acc, 2 * String.length s + 2 <= fuel ->
                    parse_members (S fuel) s acc = parse_members fuel s acc).
Proof.
  induction fuel as [|fuel (IHv & IHe & IHm)];
    [repeat split; intros; lia|].
  repeat split.
  - intros s Hs. cbn [parse_value].
    destruct (skip_whitespace s) as [|c rest0] eqn:Es; [reflexivity|].
    apply skipped_length in Es.
    destruct (Ascii.eqb c "{").
    { destruct (skip_whitespace rest0) as [|c' rest1]; [reflexivity|].
      destruct (Ascii.eqb c' "}"); [reflexivity|]. apply IHm. lia. }
    destruct (Ascii.eqb c "[").
    { destruct (skip_whitespace rest0) as [|c' rest1]; [reflexivity|].
      destruct (Ascii.eqb c' "]"); [reflexivity|]. apply IHe. lia. }
    reflexivity.
  - intros s acc Hs. cbn [parse_elements]. rewrite IHv by lia.
    destruct (parse_value fuel s) as [[v0 rest0]|] eqn:E0; [|reflexivity].
    apply (proj1 (parse_rest_length fuel)) in E0.
    destruct (skip_whitespace rest0) as [|c rest1] eqn:E1; [reflexivity|].
    apply skipped_length in E1.
    destruct (Ascii.eqb c ","); [apply IHe; lia | reflexivity].
  - intros s acc Hs. cbn [parse_members].
    destruct (skip_whitespace s) as [|q rest0] eqn:Es; [reflexivity|].
    apply skipped_length in Es.
    destruct (Ascii.eqb q double_quote); [|reflexivity].
    destruct (lex_string rest0) as [[key rest1]|] eqn:E1; [|reflexivity].
    unfold lex_string in E1. apply lex_chars_length in E1.
    destruct (skip_whitespace rest1) as [|c rest2] eqn:E2; [reflexivity|].
    apply skipped_length in E2.
    destruct (Ascii.eqb c ":"); [|reflexivity].
    rewrite IHv by lia.
    destruct (parse_value fuel rest2) as [[v0 rest3]|] eqn:E3; [|reflexivity].
    apply (proj1 (parse_rest_length fuel)) in E3. cbv zeta.
    destruct (skip_whitespace rest3) as [|d rest4] eqn:E4; [reflexivity|].
    apply skipped_length in E4.
    destruct (Ascii.eqb d ","); [apply IHm; lia | reflexivity].
Qed.

(** The fuel that [JSON_parse] gives the parser is enough: with any larger
    amount the parser returns the same. *)
Theorem parse_fuel_enough (text : string) (fuel : nat) :
  2 * String.length text + 2 <= fuel ->
  parse_value fuel text = parse_value (2 * String.length text + 2) text.
Proof.
  induction 1 as [|fuel Hle IH]; [reflexivity|].
  rewrite <- IH. apply (proj1 (parse_fuel_stable fuel)). lia.
Qed.
End FuelEnough.

(** ** Base64 *)

Lemma below_forallb (P : N -> bool) (k : nat) :
  forallb P (map N.of_nat (seq 0 k)) = true ->
  forall n, (n < N.of_nat k)%N -> P n = true.
Proof.
  intros H n Hn. rewrite forallb_forall in H. apply H.
  rewrite <- (N2Nat.id n). apply in_map, in_seq. lia.
Qed.

Lemma base64_value_digit (n : N) :
  (n < 64)%N -> Base64.value (Base64.digit n) = Some n.
Proof.
  intros Hn.
  pose proof (below_forallb
                (fun n => match Base64.value (Base64.digit n) with
                          | Some m => N.eqb m n
                          | None => false
                          end) 64 eq_refl n Hn) as H.
  cbv beta in H. destruct (Base64.value (Base64.digit n)); [|discriminate].
  apply N.eqb_eq in H. now subst.
Qed.

Lemma base64_digit_not_pad (n : N) :
  (n < 64)%N -> Ascii.eqb (Base64.digit n) Base64.pad = false.
Proof.
  intros Hn. destruct (Ascii.eqb_spec (Base64.digit n) Base64.pad) as [E|]; auto.
  pose proof (base64_value_digit n Hn) as H. rewrite E in H. discriminate H.
Qed.

Lemma string_ind3 (P : string -> Prop) :
  P "" ->
  (forall a, P (String a "")) ->
  (forall a b, P (String a (String b ""))) ->
  (forall a b c rest, P rest -> P (String a (String b (String c rest)))) ->
  forall s, P s.
Proof.
  intros H0 H1 H2 H3. fix self 1.
  intros [|a [|b [|c rest]]]; [apply H0 | apply H1 | apply H2 |].
  apply H3, self.
Qed.

Ltac byte_bound a := pose proof (N_ascii_bounded a).

Ltac n_arith := zify; Z.to_euclidean_division_equations; lia.

Theorem base64_decode_encode (bytes : string) :
  Base64.decode (Base64.encode bytes) = Some bytes.
Proof.
  induction bytes as [ | a | a b | a b c rest IH] using string_ind3.
  - reflexivity.
  - destruct a as [[] [] [] [] [] [] [] []]; reflexivity.
  - byte_bound a. byte_bound b.
    cbn [Base64.encode Base64.decode].
    set (n := (N_of_ascii a * 256 + N_of_ascii b)%N).
    rewrite !base64_value_digit, !base64_digit_not_pad by (subst n; n_arith).
    rewrite Ascii.eqb_refl. simpl Base64.is_empty. cbv iota.
    replace (n / 1024 * 4 + n / 16 mod 64 / 16)%N with (N_of_ascii a)
      by (subst n; n_arith).
    replace (n / 16 mod 64 mod 16 * 16 + n mod 16 * 4 / 4)%N with (N_of_ascii b)
      by (subst n; n_arith).
    now rewrite !ascii_N_embedding.
  - byte_bound a. byte_bound b. byte_bound c.
    cbn [Base64.encode Base64.decode].
    set (n := (N_of_ascii a * 65536 + N_of_ascii b * 256 + N_of_ascii c)%N).
    rewrite !base64_value_digit, !base64_digit_not_pad, IH
      by (subst n; n_arith).
    replace (n / 262144 * 4 + n / 4096 mod 64 / 16)%N with (N_of_ascii a)
      by (subst n; n_arith).
    replace (n / 4096 mod 64 mod 16 * 16 + n / 64 mod 64 / 4)%N with (N_of_ascii b)
      by (subst n; n_arith).
    replace (n / 64 mod 64 mod 4 * 64 + n mod 64)%N with (N_of_ascii c)
      by (subst n; n_arith).
    now rewrite !ascii_N_embedding.
Qed.

(** ** UTF-8 *)

Lemma valid_ascii_app (a b : string) :
  ascii_only a = true -> Utf8.valid (a ++ b) = Utf8.valid b.
Proof.
  induction a as [|c a IH]; intros H; [reflexivity|].
  simpl in H. apply andb_true_iff in H as [Hc Ha].
  simpl. rewrite Hc. auto.
Qed.

Lemma quote_char_low (c : ascii) :
  (N_of_ascii c <? 128)%N = true -> ascii_only (quote_char c) = true.
Proof.
  destruct c as [[] [] [] [] [] [] [] []]; intros H;
    try discriminate H; reflexivity.
Qed.

Lemma quote_char_high (c : ascii) :
  (N_of_ascii c <? 128)%N = false -> quote_char c = String c "".
Proof.
  destruct c as [[] [] [] [] [] [] [] []]; intros H;
    try discriminate H; reflexivity.
Qed.

Lemma between_high (lo hi : N) (c : ascii) :
  (128 <= lo)%N -> Utf8.between lo hi c = true ->
  (N_of_ascii c <? 128)%N = false.
Proof.
  unfold Utf8.between. intros Hlo H. apply andb_true_iff in H as [H _].
  apply N.leb_le in H. apply N.ltb_ge. lia.
Qed.

Lemma second_byte_high (n : N) (lo1 hi1 lo2 hi2 : N) (k1 k2 : N) (c : ascii) :
  (128 <= lo1)%N -> (128 <= lo2)%N ->
  (if (n =? k1)%N then Utf8.between lo1 hi1 c
   else if (n =? k2)%N then Utf8.between lo2 hi2 c
        else Utf8.continuation c) = true ->
  (N_of_ascii c <? 128)%N = false.
Proof.
  intros H1 H2 H. destruct (n =? k1)%N; [|destruct (n =? k2)%N].
  - eapply between_high; [|exact H]. exact H1.
  - eapply between_high; [|exact H]. exact H2.
  - eapply between_high; [|exact H]. lia.
Qed.

Ltac split_and :=
  repeat match goal with
         | H : _ && _ = true |- _ => apply andb_true_iff in H as [? H]
         end.

(** Escaping keeps a well-formed text well-formed: only characters below
    128 are rewritten, into characters below 128. *)
Lemma valid_quote_chars (s : string) :
  forall (n : nat) (b : string),
    String.length s <= n ->
    Utf8.valid s = true ->
    Utf8.valid (quote_chars s ++ b) = Utf8.valid b.
Proof.
  intros n. revert s.
  induction n as [|n IH]; intros s b Hlen Hs.
  - destruct s; [reflexivity | simpl in Hlen; lia].
  - destruct s as [|b0 rest]; [reflexivity|].
    simpl in Hlen. cbn [Utf8.valid] in Hs. cbn [quote_chars].
    destruct (N_of_ascii b0 <? 128)%N eqn:E0.
    { rewrite append_assoc, valid_ascii_app by now apply quote_char_low.
      apply IH; [lia | exact Hs]. }
    rewrite (quote_char_high b0 E0).
    cbn [append Utf8.valid]. rewrite E0.
    destruct (N_of_ascii b0 <? 194)%N; [discriminate Hs|].
    destruct (N_of_ascii b0 <? 224)%N.
    { destruct rest as [|b1 r]; [discriminate Hs|]. split_and.
      cbn [quote_chars append].
      rewrite (quote_char_high b1) by (eapply between_high; [|eassumption]; lia).
      cbn [append]. rewrite H. apply IH; [simpl in Hlen; lia | exact Hs]. }
    destruct (N_of_ascii b0 <? 240)%N.
    { destruct rest as [|b1 [|b2 r]]; try discriminate Hs. split_and.
      cbn [quote_chars append].
      rewrite (quote_char_high b1)
        by (eapply second_byte_high; [| |eassumption]; lia).
      rewrite (quote_char_high b2) by (eapply between_high; [|eassumption]; lia).
      cbn [append]. rewrite H, H0. apply IH; [simpl in Hlen; lia | exact Hs]. }
    destruct (N_of_ascii b0 <? 245)%N; [|discriminate Hs].
    destruct rest as [|b1 [|b2 [|b3 r]]]; try discriminate Hs. split_and.
    cbn [quote_chars append].
    rewrite (quote_char_high b1)
      by (eapply second_byte_high; [| |eassumption]; lia).
    rewrite (quote_char_high b2) by (eapply between_high; [|eassumption]; lia).
    rewrite (quote_char_high b3) by (eapply between_high; [|eassumption]; lia).
    cbn [append]. rewrite H, H0, H1. apply IH; [simpl in Hlen; lia | exact Hs].
Qed.

Lemma valid_quoted (s b : string) :
  Utf8.valid s = true ->
  Utf8.valid (QuoteJSONString s ++ b) = Utf8.valid b.
Proof.
  intros Hs. unfold QuoteJSONString. cbn [append]. rewrite append_assoc.
  cbn [Utf8.valid]. change (N_of_ascii double_quote <? 128)%N with true.
  cbn iota. rewrite (valid_quote_chars s (String.length s)) by auto.
  reflexivity.
Qed.

Section Serialized.
Context {NC : NumberCodec} {laws : NumberCodecLaws NC}.

Lemma valid_concat {A} (f : A -> string) (l : list A) (b : string) :
  Forall (fun x => forall b, Utf8.valid (f x ++ b) = Utf8.valid b) l ->
  Utf8.valid (String.concat "," (map f l) ++ b) = Utf8.valid b.
Proof.
  induction 1 as [|x l Hx _ IH]; [reflexivity|].
  destruct l as [|y l].
  - simpl. apply Hx.
  - change (map f (x :: y :: l)) with (f x :: f y :: map f l).
    rewrite concat_cons2, !append_assoc, Hx.
    change (String.concat "," (f y :: map f l))
      with (String.concat "," (map f (y :: l))).
    exact IH.
Qed.

(** The text of a value whose strings are well-formed is well-formed. *)
Lemma valid_serialized (v : Jsonable) :
  utf8_strings v = true ->
  forall b, Utf8.valid (SerializeJSONProperty v ++ b) = Utf8.valid b.
Proof.
  induction v as [ | x | n | s | elements IH | properties IH] using Jsonable_ind;
    intros Hv b.
  - reflexivity.
  - destruct x; reflexivity.
  - apply valid_ascii_app, toString_ascii.
  - apply valid_quoted, Hv.
  - rewrite serialize_array. cbn [append Utf8.valid]. rewrite append_assoc.
    change (N_of_ascii "[" <? 128)%N with true. cbn iota.
    rewrite valid_concat; [reflexivity|].
    simpl in Hv. rewrite forallb_forall in Hv. rewrite Forall_forall in *.
    intros x Hx. apply IH; auto.
  - rewrite serialize_object. cbn [append Utf8.valid]. rewrite append_assoc.
    change (N_of_ascii "{" <? 128)%N with true. cbn iota.
    rewrite valid_concat; [reflexivity|].
    simpl in Hv. rewrite forallb_forall in Hv. rewrite Forall_forall in *.
    intros [k x] Hx b'. specialize (Hv _ Hx). specialize (IH _ Hx).
    apply andb_true_iff in Hv as [Hk Hx']. unfold member_text.
    cbn [fst snd] in *. rewrite append_assoc, valid_quoted by exact Hk.
    cbn [append Utf8.valid]. change (N_of_ascii ":" <? 128)%N with true.
    cbn iota. apply IH, Hx'.
Qed.

Lemma valid_stringify (v : Jsonable) :
  utf8_strings v = true -> Utf8.valid (JSON_stringify v) = true.
Proof.
  intros Hv. unfold JSON_stringify.
  rewrite <- (append_nil_r (SerializeJSONProperty v)).
  now rewrite valid_serialized.
Qed.
End Serialized.

(** ** Lookups in maps and objects *)

Lemma JsMap_get_set {V} (key k : string) (value : V) (m : JsMap.t V) :
  JsMap.get k (JsMap.set key value m)
  = if String.eqb k key then Some value else JsMap.get k m.
Proof.
  induction m as [|[k0 v0] m IH]; simpl.
  - reflexivity.
  - destruct (String.eqb_spec key k0) as [->|Hk0]; simpl.
    + destruct (String.eqb k k0); reflexivity.
    + rewrite IH. destruct (String.eqb_spec k k0) as [->|Hk].
      * destruct (String.eqb_spec k0 key) as [E|_]; [congruence|reflexivity].
      * reflexivity.
Qed.

Section Lookup.
Context {V : Type}.

Lemma has_get (k : string) (m : JsMap.t V) :
  JsMap.has k m = false <-> JsMap.get k m = None.
Proof.
  induction m as [|[k0 v0] m IH]; simpl; [tauto|].
  destruct (String.eqb k k0); [split; discriminate | exact IH].
Qed.

Lemma has_In (k : string) (m : JsMap.t V) :
  JsMap.has k m = true <-> In k (JsMap.keys m).
Proof.
  induction m as [|[k0 v0] m IH]; simpl; [split; [discriminate | tauto]|].
  destruct (String.eqb_spec k k0) as [->|Hk].
  - split; auto.
  - rewrite IH. split; [auto | intros [E|H]; [congruence | exact H]].
Qed.

Lemma get_app (k : string) (m1 m2 : JsMap.t V) :
  JsMap.get k (m1 ++ m2)%list
  = match JsMap.get k m1 with Some v => Some v | None => JsMap.get k m2 end.
Proof.
  induction m1 as [|[k0 v0] m1 IH]; simpl; [reflexivity|].
  destruct (String.eqb k k0); [reflexivity | exact IH].
Qed.

Lemma last_set_get (k : string) (m : list (string * V)) :
  NoDup (JsMap.keys m) -> last_set k m = JsMap.get k m.
Proof.
  induction m as [|[k0 v0] m IH]; intros Hnd; simpl; [reflexivity|].
  inversion Hnd as [|? ? Hnot Hnd']; subst.
  rewrite (IH Hnd'). destruct (String.eqb_spec k k0) as [->|Hk].
  - destruct (JsMap.get k0 m) eqn:E; [|reflexivity].
    exfalso. apply Hnot. apply has_In.
    destruct (JsMap.has k0 m) eqn:Eh; [reflexivity|].
    apply has_get in Eh. congruence.
  - destruct (JsMap.get k m); reflexivity.
Qed.

(** Folding an update that behaves like an assignment on lookups. *)
Lemma get_fold_update
      (upd : string -> V -> list (string * V) -> list (string * V))
      (l : list (string * V)) :
  Forall (fun p => forall k acc,
              JsMap.get k (upd (fst p) (snd p) acc)
              = if String.eqb k (fst p) then Some (snd p) else JsMap.get k acc) l ->
  forall k acc,
    JsMap.get k (fold_left (fun acc p => upd (fst p) (snd p) acc) l acc)
    = match last_set k l with
      | Some v => Some v
      | None => JsMap.get k acc
      end.
Proof.
  induction 1 as [|[key value] l Hp _ IH]; intros k acc; simpl; [reflexivity|].
  rewrite IH. destruct (last_set k l); [reflexivity|].
  rewrite Hp. simpl. destruct (String.eqb k key); reflexivity.
Qed.

Lemma fold_update_invariant (P : list (string * V) -> Prop)
      (upd : string -> V -> list (string * V) -> list (string * V))
      (l : list (string * V)) :
  Forall (fun p => forall acc, P acc -> P (upd (fst p) (snd p) acc)) l ->
  forall acc, P acc ->
    P (fold_left (fun acc p => upd (fst p) (snd p) acc) l acc).
Proof.
  induction 1 as [|p l Hp _ IH]; intros acc Hacc; simpl; auto.
Qed.

Lemma JsMap_set_keys (key : string) (value : V) (m : JsMap.t V) :
  JsMap.keys (JsMap.set key value m)
  = if JsMap.has key m then JsMap.keys m else (JsMap.keys m ++ [key])%list.
Proof.
  induction m as [|[k0 v0] m IH]; simpl; [reflexivity|].
  destruct (String.eqb key k0); [reflexivity|].
  simpl. fold (JsMap.keys (JsMap.set key value m)). rewrite IH.
  destruct (JsMap.has key m); reflexivity.
Qed.

Lemma NoDup_snoc (k : string) (ks : list string) :
  NoDup ks -> ~ In k ks -> NoDup (ks ++ [k]).
Proof.
  intros Hnd Hk. apply NoDup_app; [exact Hnd | repeat constructor; auto |].
  intros x Hx [<-|[]]. contradiction.
Qed.

Lemma not_has (k : string) (m : JsMap.t V) :
  JsMap.has k m = false -> ~ In k (JsMap.keys m).
Proof.
  intros H Hin. apply has_In in Hin. congruence.
Qed.

Lemma JsMap_set_NoDup (key : string) (value : V) (m : JsMap.t V) :
  NoDup (JsMap.keys m) -> NoDup (JsMap.keys (JsMap.set key value m)).
Proof.
  intros Hnd. rewrite JsMap_set_keys.
  destruct (JsMap.has key m) eqn:E; [exact Hnd|].
  apply NoDup_snoc; [exact Hnd | now apply not_has].
Qed.

Lemma JsMap_set_Forall (P : string * V -> Prop) (key : string) (value : V)
      (m : JsMap.t V) :
  P (key, value) -> Forall P m -> Forall P (JsMap.set key value m).
Proof.
  intros Hp. induction 1 as [|[k0 v0] m H0 Hm IH]; simpl.
  - repeat constructor. exact Hp.
  - destruct (String.eqb_spec key k0) as [->|]; constructor; auto.
Qed.
End Lookup.


Section Properties.
Context {NC : NumberCodec}.

Lemma replace_is_set (key : string) (value : Jsonable) (ps : properties_of) :
  JsMap.has key ps = true -> replace_property key value ps = JsMap.set key value ps.
Proof.
  induction ps as [|[k0 v0] ps IH]; simpl; [discriminate|].
  destruct (String.eqb key k0); [reflexivity|].
  intros H. now rewrite IH.
Qed.

Lemma insert_index_get (i : N) (key k : string) (value : Jsonable)
      (ps : properties_of) :
  JsMap.has key ps = false ->
  JsMap.get k (insert_index i key value ps)
  = if String.eqb k key then Some value else JsMap.get k ps.
Proof.
  induction ps as [|[k0 v0] ps IH]; simpl; [reflexivity|].
  destruct (String.eqb_spec key k0) as [->|Hk0]; [discriminate|]. intros Hhas.
  destruct (array_index k0) as [j|]; [destruct (i <? j)%N|]; simpl;
    try reflexivity.
  rewrite (IH Hhas).
  destruct (String.eqb_spec k k0) as [->|]; [|reflexivity].
  destruct (String.eqb_spec k0 key); [congruence | reflexivity].
Qed.

Lemma insert_index_keys (i : N) (key : string) (value : Jsonable)
      (ps : properties_of) :
  Permutation (JsMap.keys (insert_index i key value ps)) (key :: JsMap.keys ps).
Proof.
  induction ps as [|[k0 v0] ps IH]; simpl; [reflexivity|].
  destruct (array_index k0) as [j|]; [destruct (i <? j)%N|]; simpl;
    try reflexivity.
  fold (JsMap.keys (insert_index i key value ps)).
  rewrite IH. apply perm_swap.
Qed.

Lemma insert_index_Forall (P : string * Jsonable -> Prop) (i : N) (key : string)
      (value : Jsonable) (ps : properties_of) :
  P (key, value) -> Forall P ps -> Forall P (insert_index i key value ps).
Proof.
  intros Hp. induction 1 as [|[k0 v0] ps H0 Hps IH]; simpl.
  - repeat constructor. exact Hp.
  - destruct (array_index k0) as [j|]; [destruct (i <? j)%N|];
      repeat constructor; auto.
Qed.

Lemma add_property_get (key k : string) (value : Jsonable) (ps : properties_of) :
  JsMap.has key ps = false ->
  JsMap.get k (add_property key value ps)
  = if String.eqb k key then Some value else JsMap.get k ps.
Proof.
  intros Hhas. unfold add_property. destruct (array_index key) as [i|].
  - now apply insert_index_get.
  - rewrite get_app. simpl. destruct (JsMap.get k ps) eqn:E.
    + destruct (String.eqb_spec k key) as [->|]; [|reflexivity].
      apply has_get in Hhas. congruence.
    + reflexivity.
Qed.

Lemma add_property_keys (key : string) (value : Jsonable) (ps : properties_of) :
  Permutation (JsMap.keys (add_property key value ps)) (key :: JsMap.keys ps).
Proof.
  unfold add_property. destruct (array_index key) as [i|].
  - apply insert_index_keys.
  - unfold JsMap.keys. rewrite map_app. simpl.
    symmetry. apply Permutation_cons_append.
Qed.

Lemma add_property_Forall (P : string * Jsonable -> Prop) (key : string)
      (value : Jsonable) (ps : properties_of) :
  P (key, value) -> Forall P ps -> Forall P (add_property key value ps).
Proof.
  intros Hp Hps. unfold add_property. destruct (array_index key) as [i|].
  - now apply insert_index_Forall.
  - apply Forall_app. split; [exact Hps | repeat constructor; exact Hp].
Qed.

Lemma add_property_NoDup (key : string) (value : Jsonable) (ps : properties_of) :
  JsMap.has key ps = false ->
  NoDup (JsMap.keys ps) -> NoDup (JsMap.keys (add_property key value ps)).
Proof.
  intros Hhas Hnd.
  eapply Permutation_NoDup; [symmetry; apply add_property_keys|].
  constructor; [now apply not_has | exact Hnd].
Qed.

(** [CreateDataProperty] behaves like an assignment on lookups, whatever the
    key. *)
Lemma CreateDataProperty_get (key k : string) (value : Jsonable)
      (ps : properties_of) :
  JsMap.get k (CreateDataProperty key value ps)
  = if String.eqb k key then Some value else JsMap.get k ps.
Proof.
  unfold CreateDataProperty. destruct (JsMap.has key ps) eqn:E.
  - rewrite replace_is_set by exact E. apply JsMap_get_set.
  - now apply add_property_get.
Qed.

Lemma CreateDataProperty_NoDup (key : string) (value : Jsonable)
      (ps : properties_of) :
  NoDup (JsMap.keys ps) -> NoDup (JsMap.keys (CreateDataProperty key value ps)).
Proof.
  intros Hnd. unfold CreateDataProperty. destruct (JsMap.has key ps) eqn:E.
  - rewrite replace_is_set by exact E. now apply JsMap_set_NoDup.
  - now apply add_property_NoDup.
Qed.

(** So does the assignment [O[key] = value], for every key but "__proto__". *)
Lemma assign_property_get (key k : string) (value : Jsonable)
      (ps : properties_of) :
  key <> "__proto__" ->
  JsMap.get k (assign_property key value ps)
  = if String.eqb k key then Some value else JsMap.get k ps.
Proof.
  intros Hkey. unfold assign_property. destruct (JsMap.has key ps) eqn:E.
  - rewrite replace_is_set by exact E. apply JsMap_get_set.
  - destruct (String.eqb_spec key "__proto__"); [contradiction|].
    now apply add_property_get.
Qed.

Lemma assign_property_NoDup (key : string) (value : Jsonable)
      (ps : properties_of) :
  NoDup (JsMap.keys ps) -> NoDup (JsMap.keys (assign_property key value ps)).
Proof.
  intros Hnd. unfold assign_property. destruct (JsMap.has key ps) eqn:E.
  - rewrite replace_is_set by exact E. now apply JsMap_set_NoDup.
  - destruct (String.eqb key "__proto__"); [exact Hnd|].
    now apply add_property_NoDup.
Qed.

Lemma assign_property_Forall (P : string * Jsonable -> Prop) (key : string)
      (value : Jsonable) (ps : properties_of) :
  P (key, value) -> Forall P ps -> Forall P (assign_property key value ps).
Proof.
  intros Hp Hps. unfold assign_property. destruct (JsMap.has key ps) eqn:E.
  - rewrite replace_is_set by exact E. now apply JsMap_set_Forall.
  - destruct (String.eqb key "__proto__"); [exact Hps|].
    now apply add_property_Forall.
Qed.

(** The object literal that [snapshot] builds. *)
Lemma contentsBlob_NoDup (m : JsMap.t Jsonable) :
  NoDup (JsMap.keys (contentsBlob m)).
Proof.
  unfold contentsBlob.
  apply (fold_update_invariant (fun ps => NoDup (JsMap.keys ps)) assign_property).
  - apply Forall_forall. intros p _ acc. apply assign_property_NoDup.
  - constructor.
Qed.

Lemma contentsBlob_Forall (P : string * Jsonable -> Prop) (m : JsMap.t Jsonable) :
  Forall P m -> Forall P (contentsBlob m).
Proof.
  intros Hm. unfold contentsBlob.
  apply (fold_update_invariant (Forall P) assign_property); [|constructor].
  eapply Forall_impl; [|exact Hm]. intros [k v] Hp acc.
  now apply assign_property_Forall.
Qed.

(** The assignment [O["__proto__"] = value] changes no own property of an
    object that has no own property of that name. *)
Lemma assign_proto (value : Jsonable) (ps : properties_of) :
  JsMap.get "__proto__" ps = None ->
  assign_property "__proto__" value ps = ps.
Proof.
  intros H. apply has_get in H. unfold assign_property. now rewrite H.
Qed.

Lemma fold_assign_get (m : JsMap.t Jsonable) :
  forall (acc : properties_of) (k : string),
    JsMap.get "__proto__" acc = None ->
    JsMap.get k
      (fold_left (fun blob entry => assign_property (fst entry) (snd entry) blob)
                 m acc)
    = if String.eqb k "__proto__" then None
      else match last_set k m with
           | Some v => Some v
           | None => JsMap.get k acc
           end.
Proof.
  induction m as [|[key value] m IH]; intros acc k Hacc; simpl.
  - destruct (String.eqb_spec k "__proto__") as [->|]; [exact Hacc | reflexivity].
  - destruct (String.eqb_spec key "__proto__") as [->|Hkey].
    + rewrite assign_proto by exact Hacc. rewrite IH by exact Hacc.
      destruct (String.eqb k "__proto__"); [reflexivity|].
      now destruct (last_set k m).
    + rewrite IH.
      * destruct (String.eqb k "__proto__"); [reflexivity|].
        destruct (last_set k m); [reflexivity|].
        rewrite assign_property_get by exact Hkey.
        now destruct (String.eqb k key).
      * rewrite assign_property_get by exact Hkey.
        destruct (String.eqb_spec "__proto__" key); [congruence | exact Hacc].
Qed.

(** The literal holds every entry of the mapping but the one under the key
    "__proto__". *)
Lemma contentsBlob_get (m : JsMap.t Jsonable) (k : string) :
  NoDup (JsMap.keys m) ->
  JsMap.get k (contentsBlob m)
  = if String.eqb k "__proto__" then None else JsMap.get k m.
Proof.
  intros Hnd. unfold contentsBlob. rewrite fold_assign_get by reflexivity.
  rewrite last_set_get by exact Hnd.
  destruct (String.eqb k "__proto__"); [reflexivity|].
  now destruct (JsMap.get k m).
Qed.
End Properties.

(** ** The codec for whole numbers obeys the laws *)

Lemma nzhead_not_D0 (d x : Decimal.uint) : Decimal.nzhead d <> Decimal.D0 x.
Proof. induction d; simpl; try discriminate; exact IHd. Qed.

Lemma to_uint_head (p : positive) :
  match Pos.to_uint p with
  | Decimal.Nil | Decimal.D0 _ => False
  | _ => True
  end.
Proof.
  pose proof (DecimalPos.Unsigned.to_of (Pos.to_uint p)) as H.
  rewrite DecimalPos.Unsigned.of_to in H.
  change (N.to_uint (N.pos p)) with (Pos.to_uint p) in H.
  pose proof (DecimalPos.Unsigned.to_uint_nonzero p) as Hz.
  pose proof (DecimalPos.Unsigned.to_uint_nonnil p) as Hn.
  destruct (Pos.to_uint p) as [|d| | | | | | | | | ] eqn:E; auto.
  rewrite unorm_D0 in H. unfold Decimal.unorm in H.
  destruct (Decimal.nzhead d) eqn:En; try discriminate H.
  - injection H as ->. apply Hz. reflexivity.
  - apply (nzhead_not_D0 d u). rewrite En. now symmetry.
Qed.

Lemma digits_prefix_boundary (tail : string) :
  number_boundary tail = true -> digits_prefix tail = ("", tail).
Proof.
  destruct tail as [|c tail]; [reflexivity|]. simpl. intros H.
  destruct (Ascii.eqb_spec c ",") as [->|]; [reflexivity|].
  destruct (Ascii.eqb_spec c "]") as [->|]; [reflexivity|].
  destruct (Ascii.eqb_spec c "}") as [->|]; [reflexivity|discriminate].
Qed.

Lemma continues_boundary (tail : string) :
  number_boundary tail = true -> continues_number tail = false.
Proof.
  destruct tail as [|c tail]; [reflexivity|]. simpl. intros H.
  destruct (Ascii.eqb_spec c ",") as [->|]; [reflexivity|].
  destruct (Ascii.eqb_spec c "]") as [->|]; [reflexivity|].
  destruct (Ascii.eqb_spec c "}") as [->|]; [reflexivity|discriminate].
Qed.

Lemma digits_prefix_uint (d : Decimal.uint) (tail : string) :
  number_boundary tail = true ->
  digits_prefix (NilEmpty.string_of_uint d ++ tail)
  = (NilEmpty.string_of_uint d, tail).
Proof.
  intros Hb. induction d; simpl; try rewrite IHd; try reflexivity.
  now apply digits_prefix_boundary.
Qed.

Lemma ascii_only_uint (d : Decimal.uint) :
  ascii_only (NilEmpty.string_of_uint d) = true.
Proof. induction d; simpl; auto. Qed.

Lemma parse_natural_positive (p : positive) (tail : string) :
  number_boundary tail = true ->
  parse_natural (NilEmpty.string_of_uint (Pos.to_uint p) ++ tail)
  = Some (Npos p, tail).
Proof.
  intros Hb. pose proof (to_uint_head p) as Hh.
  pose proof (DecimalPos.Unsigned.of_to p) as Hof.
  pose proof (digits_prefix_uint (Pos.to_uint p) tail Hb) as Hd.
  pose proof (NilZero.usu (Pos.to_uint p)
                (DecimalPos.Unsigned.to_uint_nonnil p)) as Hu.
  unfold NilZero.string_of_uint in Hu.
  destruct (Pos.to_uint p) as [|d|d|d|d|d|d|d|d|d|d] eqn:E; try contradiction;
    unfold parse_natural;
    cbn [NilEmpty.string_of_uint append] in *;
    match goal with
    | |- context [Ascii.eqb ?c "0"] => change (Ascii.eqb c "0") with false
    end; cbv iota; rewrite Hd, Hu, (continues_boundary tail Hb);
    unfold N.of_uint; rewrite Hof; reflexivity.
Qed.

Lemma integer_to_string_positive (p : positive) :
  integer_to_string (Zpos p) = NilEmpty.string_of_uint (Pos.to_uint p).
Proof.
  unfold integer_to_string. simpl.
  pose proof (DecimalPos.Unsigned.to_uint_nonnil p).
  now destruct (Pos.to_uint p).
Qed.

Lemma integer_to_string_negative (p : positive) :
  integer_to_string (Zneg p)
  = String "-" (NilEmpty.string_of_uint (Pos.to_uint p)).
Proof.
  unfold integer_to_string. simpl.
  pose proof (DecimalPos.Unsigned.to_uint_nonnil p).
  now destruct (Pos.to_uint p).
Qed.

Lemma uint_head_digit (p : positive) :
  exists c rest,
    NilEmpty.string_of_uint (Pos.to_uint p) = String c rest
    /\ is_digit c = true /\ Ascii.eqb c "-" = false.
Proof.
  pose proof (to_uint_head p) as Hh.
  destruct (Pos.to_uint p); try contradiction;
    eexists; eexists; (split; [reflexivity | split; reflexivity]).
Qed.

Lemma digits_prefix_length (s : string) :
  String.length (snd (digits_prefix s)) <= String.length s.
Proof.
  induction s as [|c s IH]; simpl; [lia|].
  destruct ((48 <=? N_of_ascii c)%N && (N_of_ascii c <=? 57)%N); [|simpl; lia].
  destruct (digits_prefix s) as [ds rest]. simpl in *. lia.
Qed.

Lemma parse_natural_length (s : string) (n : N) (rest : string) :
  parse_natural s = Some (n, rest) -> String.length rest <= String.length s.
Proof.
  unfold parse_natural. destruct s as [|c s]; [discriminate|].
  destruct (Ascii.eqb c "0").
  - destruct (continues_number s); [discriminate|].
    intros [= _ <-]. simpl. lia.
  - pose proof (digits_prefix_length (String c s)) as Hl.
    destruct (digits_prefix (String c s)) as [ds rest'].
    destruct (NilZero.uint_of_string ds); [|discriminate].
    destruct (continues_number rest'); [discriminate|].
    intros [= _ <-]. exact Hl.
Qed.

Lemma parse_integer_length (s : string) (z : Z) (rest : string) :
  parse_integer s = Some (z, rest) -> String.length rest <= String.length s.
Proof.
  unfold parse_integer. destruct s as [|c s]; [discriminate|].
  destruct (Ascii.eqb c "-").
  - destruct (parse_natural s) as [[n rest']|] eqn:E; [|discriminate].
    apply parse_natural_length in E. intros [= _ <-]. simpl. lia.
  - destruct (parse_natural (String c s)) as [[n rest']|] eqn:E; [|discriminate].
    apply parse_natural_length in E. intros [= _ <-]. exact E.
Qed.

(** The whole-number codec obeys the laws of a number codec. *)
Lemma IntegerCodec_laws : NumberCodecLaws IntegerCodec.
Proof.
  constructor.
  - intros [|p|p].
    + exists "0"%char, "". split; [reflexivity | right; reflexivity].
    + destruct (uint_head_digit p) as (c & rest & E & Hc & _).
      exists c, rest. split; [|right; exact Hc].
      cbn [Number_toString IntegerCodec].
      now rewrite integer_to_string_positive.
    + exists "-"%char, (NilEmpty.string_of_uint (Pos.to_uint p)).
      split; [|left; reflexivity].
      cbn [Number_toString IntegerCodec].
      now rewrite integer_to_string_negative.
  - intros [|p|p].
    + reflexivity.
    + cbn [Number_toString IntegerCodec].
      rewrite integer_to_string_positive. apply ascii_only_uint.
    + cbn [Number_toString IntegerCodec].
      rewrite integer_to_string_negative. simpl. apply ascii_only_uint.
  - intros [|p|p] tail Hb.
    + cbn [Number_toString parse_number IntegerCodec].
      change (integer_to_string 0) with "0".
      unfold parse_integer, parse_natural. cbn [append].
      change (Ascii.eqb "0" "-") with false. cbv iota.
      rewrite Ascii.eqb_refl, (continues_boundary tail Hb). reflexivity.
    + cbn [Number_toString parse_number IntegerCodec].
      rewrite integer_to_string_positive.
      pose proof (parse_natural_positive p tail Hb) as Hp.
      destruct (uint_head_digit p) as (c & rest & E & _ & Hm).
      rewrite E in *. unfold parse_integer. cbn [append] in *.
      rewrite Hm, Hp. reflexivity.
    + cbn [Number_toString parse_number IntegerCodec].
      rewrite integer_to_string_negative. unfold parse_integer.
      cbn [append]. rewrite Ascii.eqb_refl, parse_natural_positive by exact Hb.
      reflexivity.
  - intros s n rest. apply parse_integer_length.
Qed.

(** ** What JSON.parse returns has distinct keys *)

Lemma to_uint_nonnil (n : N) : N.to_uint n <> Decimal.Nil.
Proof.
  destruct n as [|p]; [discriminate|]. apply DecimalPos.Unsigned.to_uint_nonnil.
Qed.

Lemma index_to_string_inj (n m : N) :
  index_to_string n = index_to_string m -> n = m.
Proof.
  unfold index_to_string. intros H.
  apply (f_equal NilZero.uint_of_string) in H.
  rewrite !NilZero.usu in H by apply to_uint_nonnil.
  injection H as H. now apply DecimalN.Unsigned.to_uint_inj.
Qed.

Lemma indexed_keys {A} (l : list A) :
  forall (i : N) (k : string),
    In k (JsMap.keys (indexed i l)) ->
    exists j, (i <= j)%N /\ k = index_to_string j.
Proof.
  induction l as [|x l IH]; intros i k; simpl; [tauto|].
  intros [<- | H].
  - exists i. split; [lia | reflexivity].
  - destruct (IH _ _ H) as (j & Hj & ->). exists j. split; [lia | reflexivity].
Qed.

Lemma indexed_NoDup {A} (l : list A) (i : N) :
  NoDup (JsMap.keys (indexed i l)).
Proof.
  revert i. induction l as [|x l IH]; intros i; simpl; constructor.
  - intros H. destruct (indexed_keys _ _ _ H) as (j & Hj & E).
    apply index_to_string_inj in E. lia.
  - apply IH.
Qed.

Section ParsedKeys.
Context {NC : NumberCodec}.

Lemma parse_elements_array (fuel : nat) :
  forall s acc v rest,
    parse_elements fuel s acc = Some (v, rest) -> exists l, v = JArray l.
Proof.
  induction fuel as [|fuel IH]; intros s acc v rest H; [discriminate H|].
  cbn [parse_elements] in H.
  destruct (parse_value fuel s) as [[v0 rest0]|]; [|discriminate H].
  destruct (skip_whitespace rest0) as [|c rest1]; [discriminate H|].
  destruct (Ascii.eqb c ","); [eapply IH; exact H|].
  destruct (Ascii.eqb c "]"); [|discriminate H].
  injection H as <- _. eauto.
Qed.

Lemma parse_members_object (fuel : nat) :
  forall s acc v rest,
    NoDup (JsMap.keys acc) ->
    parse_members fuel s acc = Some (v, rest) ->
    exists ps, v = JObject ps /\ NoDup (JsMap.keys ps).
Proof.
  induction fuel as [|fuel IH]; intros s acc v rest Hacc H; [discriminate H|].
  cbn [parse_members] in H.
  destruct (skip_whitespace s) as [|q rest0]; [discriminate H|].
  destruct (Ascii.eqb q double_quote); [|discriminate H].
  destruct (lex_string rest0) as [[key rest1]|]; [|discriminate H].
  destruct (skip_whitespace rest1) as [|c rest2]; [discriminate H|].
  destruct (Ascii.eqb c ":"); [|discriminate H].
  destruct (parse_value fuel rest2) as [[v0 rest3]|]; [|discriminate H].
  cbv zeta in H.
  destruct (skip_whitespace rest3) as [|d rest4]; [discriminate H|].
  pose proof (CreateDataProperty_NoDup key v0 acc Hacc) as Hnd.
  destruct (Ascii.eqb d ","); [eapply IH; [exact Hnd | exact H]|].
  destruct (Ascii.eqb d "}"); [|discriminate H].
  injection H as <- _. eauto.
Qed.

Lemma parse_value_object (fuel : nat) (s rest : string)
      (ps : list (string * Jsonable)) :
  parse_value fuel s = Some (JObject ps, rest) -> NoDup (JsMap.keys ps).
Proof.
  destruct fuel as [|fuel]; intros H; [discriminate H|].
  cbn [parse_value] in H.
  destruct (skip_whitespace s) as [|c rest0]; [discriminate H|].
  destruct (Ascii.eqb c "{").
  { destruct (skip_whitespace rest0) as [|c' rest1]; [discriminate H|].
    destruct (Ascii.eqb c' "}").
    - injection H as <- _. constructor.
    - apply parse_members_object in H; [|constructor].
      destruct H as (ps' & [= ->] & Hnd). exact Hnd. }
  destruct (Ascii.eqb c "[").
  { destruct (skip_whitespace rest0) as [|c' rest1]; [discriminate H|].
    destruct (Ascii.eqb c' "]"); [discriminate H|].
    apply parse_elements_array in H. destruct H as (l & [=]). }
  destruct (Ascii.eqb c double_quote).
  { destruct (lex_string rest0) as [[str rest1]|]; discriminate H. }
  destruct (Ascii.eqb c "t"); [destruct (expect "rue" rest0); discriminate H|].
  destruct (Ascii.eqb c "f"); [destruct (expect "alse" rest0); discriminate H|].
  destruct (Ascii.eqb c "n"); [destruct (expect "ull" rest0); discriminate H|].
  destruct (parse_number (String c rest0)) as [[n rest1]|]; discriminate H.
Qed.

(** The pairs that [Object.entries] reports for a parsed text have distinct
    keys. *)
Lemma parsed_entries_NoDup (text : string) (v : Jsonable)
      (pairs : list (string * Jsonable)) :
  JSON_parse text = Normal v ->
  Object_entries v = Normal pairs ->
  NoDup (JsMap.keys pairs).
Proof.
  unfold JSON_parse. intros Hparse Hentries.
  destruct (parse_value (2 * String.length text + 2) text) as [[v0 rest]|] eqn:E;
    [|discriminate Hparse].
  destruct (skip_whitespace rest); [|discriminate Hparse].
  injection Hparse as ->.
  destruct v as [ | b | n | s | l | ps]; simpl in Hentries;
    try discriminate Hentries; injection Hentries as <-;
    try constructor; try apply indexed_NoDup.
  eapply parse_value_object; exact E.
Qed.

Lemma set_fresh {V} (key : string) (value : V) (m : JsMap.t V) :
  ~ In key (JsMap.keys m) -> JsMap.set key value m = (m ++ [(key, value)])%list.
Proof.
  induction m as [|[k0 v0] m IH]; simpl; intros Hk; [reflexivity|].
  destruct (String.eqb_spec key k0) as [->|_]; [tauto|].
  rewrite IH; tauto.
Qed.

(** Entering pairs with distinct new keys appends them in order. *)
Lemma fold_set_fresh {V} (pairs : list (string * V)) :
  forall m : JsMap.t V,
    NoDup (JsMap.keys pairs) ->
    (forall k, In k (JsMap.keys pairs) -> ~ In k (JsMap.keys m)) ->
    fold_left (fun m entry => JsMap.set (fst entry) (snd entry) m) pairs m
    = (m ++ pairs)%list.
Proof.
  induction pairs as [|[k v] pairs IH]; intros m Hnd Hfresh; simpl.
  - now rewrite List.app_nil_r.
  - inversion Hnd as [|? ? Hk Hnd']; subst.
    rewrite set_fresh by (apply Hfresh; now left).
    rewrite IH; [now rewrite <- List.app_assoc | exact Hnd' |].
    intros k' Hk'. unfold JsMap.keys. rewrite map_app, in_app_iff. simpl.
    intros [H|[<-|[]]]; [|contradiction].
    apply (Hfresh k'); [now right | exact H].
Qed.
End ParsedKeys.

(** ** The class *)

Lemma set_spec {V} (key : string) (value : V) (this : t V) :
  set key value this
  = (Normal tt, {| data := JsMap.set key value (data this); isDirty := true |}).
Proof. reflexivity. Qed.

Lemma get_all_state {V} (keys : list string) (this : t V) :
  get_all keys this = this.
Proof. revert this. induction keys as [|k keys IH]; intros; simpl; auto. Qed.

(** The tree always has the shape of the wire contract: one File entry named
    "header" of type Blob with the encoding tag "utf-8", and no id. *)
Lemma snapshot_shape {NC : NumberCodec} (this : t Jsonable) :
  snapshot this
  = (Normal (MkTree
               [MkEntry File "header" "Blob"
                  (BlobValue
                     {| contents := JSON_stringify (JObject (contentsBlob (data this)));
                        encoding := "utf-8" |})]
               None),
     this).
Proof. reflexivity. Qed.

(** C3, as amended: [set] checks nothing.  For every key and every value,
    JSON-representable or not, it returns normally, binds the key to the value
    and marks the store dirty; no error is raised at set time. *)
Theorem C3_set_accepts_every_value :
  forall (V : Type) (key : string) (value : V) (this : t V),
    result (set key value) this = Normal tt
    /\ result (get key) (state_after (set key value) this) = Normal (Some value)
    /\ isDirty (state_after (set key value) this) = true.
Proof.
  intros V key value this. unfold result, state_after. rewrite set_spec. simpl.
  rewrite JsMap_get_set, String.eqb_refl. auto.
Qed.

(** C3, as stated, fails: a value that holds a function reference is outside
    the JSON value model, yet [set] does not throw, stores it and turns the
    dirty flag on. *)
Lemma C3_function_value_is_stored :
  json_representable (VArray [VFunction "f"]) = false
  /\ set "k" (VArray [VFunction "f"]) create
     = (Normal tt, {| data := [("k", VArray [VFunction "f"])]; isDirty := true |})
  /\ ~ (exists e, set "k" (VArray [VFunction "f"]) create = (Throw e, create)).
Proof.
  repeat split; try reflexivity.
  intros [e H]. discriminate H.
Qed.

(** C4: whatever the message and the local flag, [processCore] throws the
    error "Summarizable object should not generate any ops." (the protocol
    violation of the design document) and leaves the store as it was. *)
Theorem C4_processCore_always_throws :
  forall (V Message : Type) (message : Message) (local : bool) (this : t V),
    processCore message local this
    = (Throw (Error "Summarizable object should not generate any ops."), this)
    /\ data (state_after (processCore message local) this) = data this.
Proof.
  intros V Message message local this.
  unfold state_after, processCore, throw. split; reflexivity.
Qed.

(** C7: dirty monotonicity.  A new store is not dirty; [set] always returns
    normally and leaves the store dirty, whatever the flag was; [get] and
    [snapshot] leave the whole state, the flag included, untouched. *)
Theorem C7_dirty_monotonicity :
  (forall V, isDirty (@create V) = false)
  /\ (forall V (key : string) (value : V) (this : t V),
         result (set key value) this = Normal tt
         /\ isDirty (state_after (set key value) this) = true)
  /\ (forall V (key : string) (this : t V), state_after (get key) this = this)
  /\ (forall (NC : NumberCodec) (this : t Jsonable),
         state_after snapshot this = this).
Proof. repeat split. Qed.

(** C8: idempotent snapshot.  Two calls of [snapshot] with nothing or only
    [get] calls in between return the same tree, hence the same blob contents
    byte for byte; the tree depends on the Map alone, not on the dirty
    flag. *)
Theorem C8_snapshot_idempotent :
  forall (NC : NumberCodec) (this : t Jsonable) (reads : list string),
    let first := result snapshot this in
    let second := result snapshot (get_all reads (state_after snapshot this)) in
    second = first
    /\ blob_contents second = blob_contents first
    /\ forall (m : JsMap.t Jsonable) (d d' : bool),
         result snapshot {| data := m; isDirty := d |}
         = result snapshot {| data := m; isDirty := d' |}.
Proof.
  intros NC this reads. simpl. rewrite get_all_state. repeat split.
Qed.

(** C9: empty snapshot.  The tree of a new store has one entry, and the
    contents of its blob is the text of the empty JSON object. *)
Theorem C9_empty_snapshot :
  forall NC : NumberCodec,
    result snapshot (@create Jsonable)
    = Normal (MkTree
                [MkEntry File "header" "Blob"
                   (BlobValue {| contents := "{}"; encoding := "utf-8" |})]
                None).
Proof.
  intros NC. unfold result. rewrite snapshot_shape. reflexivity.
Qed.

Lemma get_set_all {V} (calls : list (string * V)) (k : string) (this : t V) :
  JsMap.get k (data (set_all calls this))
  = match last_set k calls with
    | Some v => Some v
    | None => JsMap.get k (data this)
    end.
Proof.
  revert this. induction calls as [|[key value] calls IH]; intros this; simpl.
  - reflexivity.
  - rewrite IH. destruct (last_set k calls); [reflexivity|].
    unfold state_after. rewrite set_spec. simpl. rewrite JsMap_get_set.
    destruct (String.eqb k key); reflexivity.
Qed.

(** C10: get/set frame.  [set] returns normally; afterwards [get] of the key
    returns the value, and [get] of any other key returns what it returned
    before.  [get] never throws and never changes the state; on a store
    made by [set] calls alone it returns the value of the latest call for the
    key, or undefined (None) when there was none. *)
Theorem C10_get_set_frame :
  forall (V : Type),
    (forall (key : string) (value : V) (this : t V) (k : string),
        result (set key value) this = Normal tt
        /\ result (get k) (state_after (set key value) this)
           = if String.eqb k key then Normal (Some value)
             else result (get k) this)
    /\ (forall (k : string) (this : t V),
           state_after (get k) this = this
           /\ result (get k) this = Normal (JsMap.get k (data this)))
    /\ (forall (calls : list (string * V)) (k : string),
           result (get k) (set_all calls create) = Normal (last_set k calls)).
Proof.
  intros V. repeat split.
  - unfold result, state_after. rewrite set_spec. simpl. rewrite JsMap_get_set.
    destruct (String.eqb k key); reflexivity.
  - intros calls k. unfold result, get. cbn [fst]. rewrite get_set_all.
    destruct (last_set k calls); reflexivity.
Qed.

(** ** Snapshot and load *)

Lemma loadCore_unfold {NC : NumberCodec} branchId storage (this : t Jsonable) :
  loadCore branchId storage this
  = match read storage snapshotFileName with
    | Throw e => (Throw e, this)
    | Normal raw =>
        match fromBase64ToUtf8 raw with
        | Throw e => (Throw e, this)
        | Normal text =>
            match JSON_parse text with
            | Throw e => (Throw e, this)
            | Normal contents =>
                match Object_entries contents with
                | Throw e => (Throw e, this)
                | Normal entries =>
                    for_of entries (fun entry => data_set (fst entry) (snd entry))
                           this
                end
            end
        end
    end.
Proof.
  unfold loadCore, bind, lift.
  destruct (read storage snapshotFileName); [|reflexivity].
  destruct (fromBase64ToUtf8 a); [|reflexivity].
  destruct (JSON_parse a0); [|reflexivity].
  destruct (Object_entries a1); reflexivity.
Qed.

Lemma for_of_data_set {V} (entries : list (string * V)) (this : t V) :
  for_of entries (fun entry => data_set (fst entry) (snd entry)) this
  = (Normal tt,
     {| data := fold_left (fun m entry => JsMap.set (fst entry) (snd entry) m)
                          entries (data this);
        isDirty := isDirty this |}).
Proof.
  revert this. induction entries as [|[k v] entries IH]; intros this.
  - destruct this; reflexivity.
  - simpl. unfold bind, data_set at 1. rewrite IH. reflexivity.
Qed.

Lemma get_fold_set {V} (entries : list (string * V)) (k : string) (m : JsMap.t V) :
  JsMap.get k (fold_left (fun m entry => JsMap.set (fst entry) (snd entry) m)
                         entries m)
  = match last_set k entries with
    | Some v => Some v
    | None => JsMap.get k m
    end.
Proof.
  revert m. induction entries as [|[key value] entries IH]; intros m; simpl.
  - reflexivity.
  - rewrite IH. destruct (last_set k entries); [reflexivity|].
    rewrite JsMap_get_set. destruct (String.eqb k key); reflexivity.
Qed.

Section RoundTrip.
Context {NC : NumberCodec} {laws : NumberCodecLaws NC}.

Lemma define_all_values (ps acc : list (string * Jsonable)) :
  Forall (fun p => is_value (snd p)) ps ->
  define_all ps acc
  = fold_left (fun acc p => CreateDataProperty (fst p) (snd p) acc) ps acc.
Proof.
  intros H. revert acc. induction H as [|p ps Hp _ IH]; intros acc; simpl.
  - reflexivity.
  - unfold define_all in *. simpl. rewrite Hp. apply IH.
Qed.

Lemma define_all_NoDup (ps : list (string * Jsonable)) :
  NoDup (JsMap.keys (define_all ps [])).
Proof.
  unfold define_all.
  apply (fold_update_invariant (fun ps => NoDup (JsMap.keys ps))
           (fun k v acc => CreateDataProperty k (normalize v) acc)).
  - apply Forall_forall. intros p _ acc. apply CreateDataProperty_NoDup.
  - constructor.
Qed.

Lemma define_all_get (ps : list (string * Jsonable)) (k : string) :
  Forall (fun p => is_value (snd p)) ps ->
  JsMap.get k (define_all ps []) = last_set k ps.
Proof.
  intros H. rewrite define_all_values by exact H.
  etransitivity; [apply (get_fold_update CreateDataProperty)|].
  - apply Forall_forall. intros p _ k' acc. apply CreateDataProperty_get.
  - now destruct (last_set k ps).
Qed.

Lemma fromBase64ToUtf8_toBase64 (text : string) :
  Utf8.valid text = true -> fromBase64ToUtf8 (toBase64 text) = Normal text.
Proof.
  intros H. unfold fromBase64ToUtf8, toBase64.
  now rewrite base64_decode_encode, H.
Qed.

(** Snapshot, then load into a new store: the loaded store answers every
    [get] as the original store does, except for the key "__proto__", which
    it does not have. *)
Theorem snapshot_load_roundtrip (this : t Jsonable) :
  NoDup (JsMap.keys (data this)) ->
  Forall portable (data this) ->
  exists tree loaded,
    snapshot this = (Normal tree, this)
    /\ loadCore "" (storage_holding tree) create = (Normal tt, loaded)
    /\ forall k,
         result (get k) loaded
         = if String.eqb k "__proto__" then Normal None
           else result (get k) this.
Proof.
  intros Hnd Hport.
  pose proof (contentsBlob_Forall portable _ Hport) as Hblob.
  set (blob := contentsBlob (data this)) in *.
  assert (Hvalues : Forall (fun p => is_value (snd p)) blob).
  { eapply Forall_impl; [|exact Hblob]. intros p (_ & _ & H). exact H. }
  assert (Hvalid : Utf8.valid (JSON_stringify (JObject blob)) = true).
  { apply valid_stringify. simpl. apply forallb_forall. intros p Hp.
    rewrite Forall_forall in Hblob. destruct (Hblob p Hp) as (H1 & H2 & _).
    now rewrite H1, H2. }
  eexists. eexists. split; [apply snapshot_shape|].
  rewrite loadCore_unfold. cbn [storage_holding read tree_entries blob_at].
  change (String.eqb snapshotFileName "header") with true. cbv iota.
  cbn [contents]. fold blob.
  rewrite fromBase64ToUtf8_toBase64 by exact Hvalid.
  rewrite JSON_parse_stringify. cbn [normalize Object_entries].
  fold (define_all blob []).
  rewrite for_of_data_set. split; [reflexivity|].
  intros k. unfold result, get. cbn [fst data create].
  rewrite get_fold_set. unfold JsMap.empty. cbn [JsMap.get].
  replace (match last_set k (define_all blob []) with
           | Some v => Some v
           | None => None
           end) with (last_set k (define_all blob []))
    by now destruct (last_set k (define_all blob [])).
  rewrite last_set_get by apply define_all_NoDup.
  rewrite define_all_get by exact Hvalues.
  rewrite last_set_get by apply contentsBlob_NoDup.
  unfold blob. rewrite contentsBlob_get by exact Hnd.
  destruct (String.eqb k "__proto__"); reflexivity.
Qed.

(** The blob of a snapshot parses to an object whose properties are the
    entries of the mapping, short of the one under the key "__proto__". *)
Lemma snapshot_encodes_mapping (this : t Jsonable) :
  NoDup (JsMap.keys (data this)) ->
  Forall (fun p => is_value (snd p)) (data this) ->
  exists text properties,
    blob_contents (result snapshot this) = Some text
    /\ JSON_parse text = Normal (JObject properties)
    /\ forall k,
         JsMap.get k properties
         = if String.eqb k "__proto__" then None else JsMap.get k (data this).
Proof.
  intros Hnd Hvalues.
  pose proof (contentsBlob_Forall _ _ Hvalues) as Hblob.
  exists (JSON_stringify (JObject (contentsBlob (data this)))).
  exists (define_all (contentsBlob (data this)) []).
  split; [reflexivity|]. split; [rewrite JSON_parse_stringify; reflexivity|].
  intros k. rewrite define_all_get by exact Hblob.
  rewrite last_set_get by apply contentsBlob_NoDup.
  now apply contentsBlob_get.
Qed.

Lemma set_all_invariant (P : t Jsonable -> Prop) (Q : string * Jsonable -> Prop) :
  (forall key value this,
      Q (key, value) -> P this -> P (state_after (set key value) this)) ->
  forall calls this, Forall Q calls -> P this -> P (set_all calls this).
Proof.
  intros Hstep calls. induction calls as [|[key value] calls IH];
    intros this Hcalls Hthis; simpl; [exact Hthis|].
  inversion Hcalls; subst. apply IH; auto.
Qed.

Lemma get_absent {V} (k : string) (m : JsMap.t V) :
  ~ In k (JsMap.keys m) -> JsMap.get k m = None.
Proof.
  intros H. apply has_get. destruct (JsMap.has k m) eqn:E; [|reflexivity].
  apply has_In in E. contradiction.
Qed.

(** Round trip for the stores that [set] calls build: when no call uses the
    key "__proto__", the store loaded from the snapshot returns for every key
    what the original store returns. *)
Theorem roundtrip_after_sets (calls : list (string * Jsonable)) :
  Forall (fun p => fst p <> "__proto__" /\ portable p) calls ->
  let M := set_all calls create in
  exists tree loaded,
    snapshot M = (Normal tree, M)
    /\ loadCore "" (storage_holding tree) create = (Normal tt, loaded)
    /\ forall k, result (get k) loaded = result (get k) M.
Proof.
  intros Hcalls M. subst M.
  pose proof (set_all_invariant
                (fun this => NoDup (JsMap.keys (data this))
                             /\ ~ In "__proto__" (JsMap.keys (data this))
                             /\ Forall portable (data this))
                (fun p => fst p <> "__proto__" /\ portable p)) as Hinv.
  destruct (Hinv) with (calls := calls) (this := @create Jsonable)
    as (Hnd & Hproto & Hport).
  - intros key value this [Hkey Hp] (Hnd & Hproto & Hport).
    unfold state_after. rewrite set_spec. cbn [snd data].
    split; [now apply JsMap_set_NoDup|]. split; [|now apply JsMap_set_Forall].
    rewrite JsMap_set_keys. destruct (JsMap.has key (data this)); [exact Hproto|].
    rewrite in_app_iff. intros [H|[H|[]]]; [now apply Hproto|].
    apply Hkey. now symmetry.
  - exact Hcalls.
  - repeat split; [constructor | intros [] | constructor].
  - destruct (snapshot_load_roundtrip _ Hnd Hport) as (tree & loaded & H1 & H2 & H3).
    exists tree, loaded. split; [exact H1|]. split; [exact H2|].
    intros k. rewrite H3. destruct (String.eqb_spec k "__proto__") as [->|];
      [|reflexivity].
    unfold result, get. cbn [fst]. now rewrite get_absent.
Qed.
End RoundTrip.

(** The round trip at a store with an index key and a nested array. *)
Lemma roundtrip_example :
  let M := set_all [("count", JNumber 3%Z); ("1", JArray [JString "a"; JNull])]
                   create in
  exists tree loaded,
    snapshot M = (Normal tree, M)
    /\ loadCore "" (storage_holding tree) create = (Normal tt, loaded)
    /\ forall k, result (get k) loaded = result (get k) M.
Proof.
  apply (@roundtrip_after_sets IntegerCodec IntegerCodec_laws).
  repeat constructor; discriminate.
Defined.

(** The scenario of the design document: set count and name, take a snapshot,
    load it into a new store, read both keys back. *)
Example end_to_end_scenario :
  let store :=
    state_after (set "name" (JString "a"))
      (state_after (set "count" (JNumber 3%Z)) create) in
  exists tree reloaded,
    snapshot store = (Normal tree, store)
    /\ blob_contents (Normal tree)
       = Some (JSON_stringify
                 (JObject [("count", JNumber 3%Z); ("name", JString "a")]))
    /\ loadCore "" (storage_holding tree) create = (Normal tt, reloaded)
    /\ result (get "count") reloaded = Normal (Some (JNumber 3%Z))
    /\ result (get "name") reloaded = Normal (Some (JString "a")).
Proof.
  eexists. eexists. split; [reflexivity|].
  split; [reflexivity|]. split; [vm_compute; reflexivity|].
  split; reflexivity.
Qed.

(** C1 at the input that breaks it: a store whose only key is "__proto__".
    The assignment [contentsBlob[key] = value] of [snapshot] runs the
    inherited setter and creates no property, the blob is the text of the
    empty object, and the store loaded from it has lost the key. *)
Theorem C1_roundtrip_loses_proto_key :
  let M := state_after (set "__proto__" (JNumber 1%Z)) create in
  exists tree reloaded,
    snapshot M = (Normal tree, M)
    /\ loadCore "" (storage_holding tree) create = (Normal tt, reloaded)
    /\ result (get "__proto__") M = Normal (Some (JNumber 1%Z))
    /\ result (get "__proto__") reloaded = Normal None.
Proof.
  eexists. eexists. split; [reflexivity|].
  split; [vm_compute; reflexivity|]. split; reflexivity.
Qed.

(** C2 at the input that breaks it: the mapping holds the key "__proto__",
    the tree has the shape of the contract, but the contents of its blob is
    the text of the empty object and not an encoding of the whole mapping. *)
Theorem C2_snapshot_omits_proto_key :
  let M := state_after (set "__proto__" (JNumber 1%Z)) create in
  data M = [("__proto__", JNumber 1%Z)]
  /\ result snapshot M
     = Normal (MkTree
                 [MkEntry File "header" "Blob"
                    (BlobValue {| contents := "{}"; encoding := "utf-8" |})]
                 None)
  /\ JSON_parse "{}" = Normal (JObject []).
Proof. repeat split. Qed.

(** C5, as amended: load throws, and leaves the store exactly as it was, when
    the blob is missing, is not valid transport-encoded text, is not JSON
    text, or is the JSON text null; in every other case, a JSON text that is
    not an object included, it returns normally. *)
Theorem C5_load_fails_on_unreadable_blob :
  forall (NC : NumberCodec) (branchId : string)
         (storage : IObjectStorageService) (this : t Jsonable),
    (unreadable storage ->
     exists e, loadCore branchId storage this = (Throw e, this))
    /\ (unreadable storage
        \/ result (loadCore branchId storage) this = Normal tt).
Proof.
  intros NC branchId storage this. unfold result. rewrite loadCore_unfold. split.
  - intros [e H | raw e H1 H2 | raw text e H1 H2 H3 | raw text H1 H2 H3].
    + rewrite H. eauto.
    + rewrite H1, H2. eauto.
    + rewrite H1, H2, H3. eauto.
    + rewrite H1, H2, H3. simpl. eauto.
  - destruct (read storage snapshotFileName) as [raw|e] eqn:H1;
      [|left; eauto using @missing_blob].
    destruct (fromBase64ToUtf8 raw) as [text|e] eqn:H2;
      [|left; eauto using @not_transport_text].
    destruct (JSON_parse text) as [parsed|e] eqn:H3;
      [|left; eauto using @not_json_text].
    destruct parsed; simpl; try rewrite for_of_data_set; auto.
    left; eauto using @json_null.
Qed.

(** The theorem at a blob that is not base64 text. *)
Lemma C5_witness :
  exists e,
    loadCore "" (storage_returning "e30$") (@create Jsonable) = (Throw e, create).
Proof.
  apply (C5_load_fails_on_unreadable_blob IntegerCodec "" (storage_returning "e30$")
                                  create).
  apply (not_transport_text _ "e30$" (Error "blob is not base64 text"));
    reflexivity.
Defined.

(** C5, as stated, fails: the blob "[7]" is well-formed transport text and
    JSON text but not the text of an object, and load neither throws nor
    leaves the store empty: it enters the element under the key "0". *)
Lemma C5_array_text_is_loaded :
  fromBase64ToUtf8 (toBase64 "[7]") = Normal "[7]"
  /\ JSON_parse "[7]" = Normal (JArray [JNumber 7%Z])
  /\ loadCore "" (storage_returning (toBase64 "[7]")) create
     = (Normal tt, {| data := [("0", JNumber 7%Z)]; isDirty := false |})
  /\ ~ (exists e,
           loadCore "" (storage_returning (toBase64 "[7]"))
                    (@create (@Jsonable IntegerCodec))
           = (Throw e, create)).
Proof.
  repeat split; try (vm_compute; reflexivity).
  intros [e H]. vm_compute in H. discriminate H.
Qed.

(** C6, as amended: a successful load enters the parsed pairs into the
    mapping that is there: a key of the blob gets the blob's value, every
    other key keeps the value it had, and the dirty flag is not touched.  On
    a store that is empty before load the mapping is afterwards exactly the
    parsed pairs, in the order of [Object.entries]. *)
Theorem C6_load_merges_parsed_pairs :
  forall (NC : NumberCodec) (branchId : string) (storage : IObjectStorageService)
         (this : t Jsonable) (raw text : string) (parsed : Jsonable)
         (pairs : list (string * Jsonable)),
    read storage snapshotFileName = Normal raw ->
    fromBase64ToUtf8 raw = Normal text ->
    JSON_parse text = Normal parsed ->
    Object_entries parsed = Normal pairs ->
    exists loaded,
      loadCore branchId storage this = (Normal tt, loaded)
      /\ isDirty loaded = isDirty this
      /\ (forall k,
             result (get k) loaded
             = match JsMap.get k pairs with
               | Some v => Normal (Some v)
               | None => result (get k) this
               end)
      /\ (data this = [] -> data loaded = pairs).
Proof.
  intros NC branchId storage this raw text parsed pairs H1 H2 H3 H4.
  pose proof (parsed_entries_NoDup text parsed pairs H3 H4) as Hnd.
  rewrite loadCore_unfold, H1, H2, H3, H4, for_of_data_set.
  eexists. split; [reflexivity|]. split; [reflexivity|]. split.
  - intros k. unfold result, get. cbn [fst data]. rewrite get_fold_set.
    rewrite last_set_get by exact Hnd.
    destruct (JsMap.get k pairs); reflexivity.
  - cbn [data]. intros ->. now apply fold_set_fresh.
Qed.

(** The theorem at a new store and the blob of the text [[7]]: the loaded
    mapping is the one pair that [Object.entries] reports. *)
Lemma C6_witness :
  exists loaded,
    loadCore "" (storage_returning (toBase64 "[7]")) (@create (@Jsonable IntegerCodec))
    = (Normal tt, loaded)
    /\ isDirty loaded = false
    /\ data loaded = [("0", JNumber 7%Z)].
Proof.
  destruct (C6_load_merges_parsed_pairs IntegerCodec ""
              (storage_returning (toBase64 "[7]")) create
              (toBase64 "[7]") "[7]" (JArray [@JNumber IntegerCodec 7%Z])
              [("0", @JNumber IntegerCodec 7%Z)])
    as (loaded & Hload & Hdirty & _ & Hdata);
    try (vm_compute; reflexivity).
  exists loaded. split; [exact Hload|]. split; [exact Hdirty|].
  apply Hdata. reflexivity.
Defined.

(** C6, as stated, fails: load into a store that already holds the key "a"
    keeps that entry next to the pair parsed from the blob, so the mapping
    after load is not the set of parsed pairs. *)
Lemma C6_load_keeps_earlier_entries :
  let this := state_after (set "a" (JNumber 1%Z)) create in
  let text := JSON_stringify (JObject [("b", JNumber 2%Z)]) in
  let loaded := state_after (loadCore "" (storage_returning (toBase64 text))) this in
  JSON_parse text = Normal (JObject [("b", JNumber 2%Z)])
  /\ result (loadCore "" (storage_returning (toBase64 text))) this = Normal tt
  /\ data loaded = [("a", JNumber 1%Z); ("b", JNumber 2%Z)]
  /\ result (get "a") loaded = Normal (Some (JNumber 1%Z))
  /\ data loaded <> [("b", JNumber 2%Z)].
Proof.
  repeat split; try (vm_compute; reflexivity).
  vm_compute. discriminate.
Qed.

(** ** Further properties of the class *)

Lemma array_index_canonical (k : string) (i : N) :
  array_index k = Some i -> k = index_to_string i.
Proof.
  unfold array_index. destruct (NilZero.uint_of_string k) as [d|]; [|discriminate].
  destruct (String.eqb_spec (index_to_string (N.of_uint d)) k) as [E|];
    [|discriminate].
  destruct (N.of_uint d <=? 4294967294)%N; [|discriminate].
  intros [= <-]. now symmetry.
Qed.

Lemma order_prefix (a b : list string) :
  own_property_order (a ++ b) -> own_property_order a.
Proof.
  induction a as [|k a IH]; simpl; [tauto|].
  intros (Hk & Hp & Ho). repeat split.
  - intros H. apply Hk. apply in_or_app. now left.
  - intros k' H. apply Hp. apply in_or_app. now left.
  - now apply IH.
Qed.

Lemma order_snoc_inv (ks : list string) (k : string) :
  own_property_order (ks ++ [k]) ->
  ~ In k ks /\ forall k0, In k0 ks -> precedes k0 k.
Proof.
  induction ks as [|k1 ks IH]; simpl; [tauto|].
  intros (Hk & Hp & Ho). destruct (IH Ho) as [Hn Hprec]. split.
  - intros [->|H]; [|contradiction]. apply Hk. apply in_or_app. right. now left.
  - intros k0 [<-|H]; [|now apply Hprec].
    apply Hp. apply in_or_app. right. now left.
Qed.

Lemma order_snoc (ks : list string) (k : string) :
  own_property_order ks ->
  ~ In k ks ->
  (forall k0, In k0 ks -> precedes k0 k) ->
  own_property_order (ks ++ [k]).
Proof.
  induction ks as [|k1 ks IH]; simpl; [tauto|].
  intros (Hk & Hp & Ho) Hn Hprec. repeat split.
  - rewrite in_app_iff. intros [H|[<-|[]]]; [contradiction|]. apply Hn. now left.
  - intros k'. rewrite in_app_iff. intros [H|[<-|[]]]; [now apply Hp|].
    apply Hprec. now left.
  - apply IH; auto.
Qed.

Section Order.
Context {NC : NumberCodec}.

Lemma replace_property_keys (key : string) (value : Jsonable) (ps : properties_of) :
  JsMap.keys (replace_property key value ps) = JsMap.keys ps.
Proof.
  induction ps as [|[k0 v0] ps IH]; simpl; [reflexivity|].
  destruct (String.eqb key k0); simpl; [reflexivity|].
  f_equal. exact IH.
Qed.

(** A key that may stand last is put last. *)
Lemma insert_index_last (i : N) (key : string) (value : Jsonable)
      (ps : properties_of) :
  array_index key = Some i ->
  (forall k0, In k0 (JsMap.keys ps) -> precedes k0 key) ->
  insert_index i key value ps = (ps ++ [(key, value)])%list.
Proof.
  intros Hi. induction ps as [|[k0 v0] ps IH]; simpl; intros Hprec;
    [reflexivity|].
  pose proof (Hprec k0 (or_introl eq_refl)) as H0. unfold precedes in H0.
  rewrite Hi in H0. destruct (array_index k0) as [j|]; [|contradiction].
  destruct (N.ltb_spec i j); [lia|]. rewrite IH; auto.
Qed.

Lemma add_property_last (key : string) (value : Jsonable) (ps : properties_of) :
  (forall k0, In k0 (JsMap.keys ps) -> precedes k0 key) ->
  add_property key value ps = (ps ++ [(key, value)])%list.
Proof.
  intros Hprec. unfold add_property.
  destruct (array_index key) as [i|] eqn:Hi; [|reflexivity].
  now apply insert_index_last.
Qed.

Lemma insert_index_order (i : N) (key : string) (value : Jsonable)
      (ps : properties_of) :
  array_index key = Some i ->
  ~ In key (JsMap.keys ps) ->
  own_property_order (JsMap.keys ps) ->
  own_property_order (JsMap.keys (insert_index i key value ps)).
Proof.
  intros Hi. induction ps as [|[k0 v0] ps IH]; simpl; intros Hn Ho.
  - repeat split; [intros [] | intros k' []].
  - destruct Ho as (Hk0 & Hp0 & Ho).
    assert (Hne : key <> k0) by (intros ->; apply Hn; now left).
    assert (Hn' : ~ In key (JsMap.keys ps)) by (intros H; apply Hn; now right).
    destruct (array_index k0) as [j|] eqn:Hj.
    + destruct (N.ltb_spec i j) as [Hlt|Hge]; simpl.
      * split; [exact Hn|]. split; [|repeat split; assumption].
        intros k' [<-|H]; unfold precedes; rewrite Hi.
        -- now rewrite Hj.
        -- specialize (Hp0 k' H). unfold precedes in Hp0. rewrite Hj in Hp0.
           destruct (array_index k'); [lia | exact I].
      * assert (Hij : (j < i)%N).
        { destruct (N.eq_dec i j) as [->|]; [|lia].
          apply array_index_canonical in Hi, Hj. congruence. }
        fold (JsMap.keys (insert_index i key value ps)).
        pose proof (insert_index_keys i key value ps) as Hperm.
        split; [|split].
        -- intros H. apply (Permutation_in _ Hperm) in H.
           destruct H as [E|H]; [congruence | contradiction].
        -- intros k' H. apply (Permutation_in _ Hperm) in H.
           destruct H as [<-|H]; [|now apply Hp0].
           unfold precedes. now rewrite Hj, Hi.
        -- now apply IH.
    + simpl. split; [exact Hn|]. split; [|repeat split; assumption].
      intros k' [<-|H]; unfold precedes; rewrite Hi.
      * now rewrite Hj.
      * specialize (Hp0 k' H). unfold precedes in Hp0. rewrite Hj in Hp0.
        destruct (array_index k'); [contradiction | exact I].
Qed.

Lemma add_property_order (key : string) (value : Jsonable) (ps : properties_of) :
  ~ In key (JsMap.keys ps) ->
  own_property_order (JsMap.keys ps) ->
  own_property_order (JsMap.keys (add_property key value ps)).
Proof.
  intros Hn Ho. unfold add_property.
  destruct (array_index key) as [i|] eqn:Hi.
  - now apply insert_index_order.
  - unfold JsMap.keys. rewrite map_app. simpl. apply order_snoc; auto.
    intros k0 _. unfold precedes. rewrite Hi. now destruct (array_index k0).
Qed.

Lemma assign_property_order (key : string) (value : Jsonable) (ps : properties_of) :
  own_property_order (JsMap.keys ps) ->
  own_property_order (JsMap.keys (assign_property key value ps)).
Proof.
  intros Ho. unfold assign_property. destruct (JsMap.has key ps) eqn:E.
  - now rewrite replace_property_keys.
  - destruct (String.eqb key "__proto__"); [exact Ho|].
    apply add_property_order; [now apply not_has | exact Ho].
Qed.

Lemma contentsBlob_order (m : JsMap.t Jsonable) :
  own_property_order (JsMap.keys (contentsBlob m)).
Proof.
  unfold contentsBlob.
  apply (fold_update_invariant (fun ps => own_property_order (JsMap.keys ps))
                               assign_property).
  - apply Forall_forall. intros p _ acc. apply assign_property_order.
  - exact I.
Qed.

(** Defining, assigning or entering properties that are listed in
    own-property order appends them one by one. *)
Lemma fold_in_order
      (upd : string -> Jsonable -> properties_of -> properties_of)
      (ps : properties_of) :
  (forall key value acc,
      In key (JsMap.keys ps) ->
      ~ In key (JsMap.keys acc) ->
      (forall k0, In k0 (JsMap.keys acc) -> precedes k0 key) ->
      upd key value acc = (acc ++ [(key, value)])%list) ->
  forall acc,
    own_property_order (JsMap.keys (acc ++ ps)%list) ->
    fold_left (fun acc p => upd (fst p) (snd p) acc) ps acc = (acc ++ ps)%list.
Proof.
  induction ps as [|[k v] ps IH]; intros Hupd acc Ho; simpl.
  - now rewrite List.app_nil_r.
  - assert (Hsnoc : own_property_order (JsMap.keys (acc ++ [(k, v)])%list)).
    { apply (order_prefix _ (JsMap.keys ps)). unfold JsMap.keys in *.
      rewrite map_app in *. simpl in *. now rewrite <- List.app_assoc. }
    unfold JsMap.keys in Hsnoc. rewrite map_app in Hsnoc. simpl in Hsnoc.
    destruct (order_snoc_inv _ _ Hsnoc) as [Hn Hprec].
    rewrite Hupd; [| now left | exact Hn | exact Hprec].
    rewrite IH.
    + now rewrite <- List.app_assoc.
    + intros key value acc' Hin. apply Hupd. now right.
    + now rewrite <- List.app_assoc.
Qed.
End Order.

Lemma JsMap_set_set {V} (key : string) (v1 v2 : V) (m : JsMap.t V) :
  JsMap.set key v2 (JsMap.set key v1 m) = JsMap.set key v2 m.
Proof.
  induction m as [|[k0 v0] m IH]; simpl.
  - now rewrite String.eqb_refl.
  - destruct (String.eqb key k0) eqn:E; simpl; rewrite E; [reflexivity|].
    now rewrite IH.
Qed.

Lemma JsMap_set_same {V} (key : string) (value : V) (m : JsMap.t V) :
  JsMap.get key m = Some value -> JsMap.set key value m = m.
Proof.
  induction m as [|[k0 v0] m IH]; simpl; [discriminate|].
  destruct (String.eqb_spec key k0) as [->|].
  - now intros [= ->].
  - intros H. now rewrite IH.
Qed.

Lemma get_In {V} (k : string) (v : V) (m : JsMap.t V) :
  NoDup (JsMap.keys m) -> In (k, v) m -> JsMap.get k m = Some v.
Proof.
  induction m as [|[k0 v0] m IH]; simpl; [tauto|].
  intros Hnd [[= -> ->]|Hin].
  - now rewrite String.eqb_refl.
  - inversion Hnd as [|? ? Hk0 Hnd']; subst.
    destruct (String.eqb_spec k k0) as [->|]; [|now apply IH].
    exfalso. apply Hk0. now apply (in_map fst) in Hin.
Qed.

(** Entering pairs with distinct keys a second time changes nothing. *)
Lemma fold_set_twice {V} (pairs : list (string * V)) (m : JsMap.t V) :
  NoDup (JsMap.keys pairs) ->
  let enter := fold_left (fun m entry => JsMap.set (fst entry) (snd entry) m) pairs in
  enter (enter m) = enter m.
Proof.
  intros Hnd enter.
  assert (Hget : forall k v, In (k, v) pairs -> JsMap.get k (enter m) = Some v).
  { intros k v Hin. unfold enter. rewrite get_fold_set.
    rewrite last_set_get by exact Hnd. now rewrite (get_In k v pairs). }
  set (m' := enter m) in *. clearbody m'. unfold enter.
  clear enter Hnd. induction pairs as [|[k v] pairs IH]; simpl; [reflexivity|].
  rewrite JsMap_set_same by (apply Hget; now left).
  apply IH. intros k' v' H. apply Hget. now right.
Qed.

Lemma get_None_not_In {V} (k : string) (m : JsMap.t V) :
  JsMap.get k m = None -> ~ In k (JsMap.keys m).
Proof. intros H. apply not_has. now apply has_get. Qed.

Section Extras.
Context {NC : NumberCodec}.

Lemma CreateDataProperty_last (key : string) (value : Jsonable) (acc : properties_of) :
  ~ In key (JsMap.keys acc) ->
  (forall k0, In k0 (JsMap.keys acc) -> precedes k0 key) ->
  CreateDataProperty key value acc = (acc ++ [(key, value)])%list.
Proof.
  intros Hn Hprec. unfold CreateDataProperty.
  destruct (JsMap.has key acc) eqn:E; [apply has_In in E; contradiction|].
  now apply add_property_last.
Qed.

Lemma assign_property_last (key : string) (value : Jsonable) (acc : properties_of) :
  key <> "__proto__" ->
  ~ In key (JsMap.keys acc) ->
  (forall k0, In k0 (JsMap.keys acc) -> precedes k0 key) ->
  assign_property key value acc = (acc ++ [(key, value)])%list.
Proof.
  intros Hkey Hn Hprec. unfold assign_property.
  destruct (JsMap.has key acc) eqn:E; [apply has_In in E; contradiction|].
  destruct (String.eqb_spec key "__proto__"); [contradiction|].
  now apply add_property_last.
Qed.

(** Properties listed in own-property order are what defining them one by
    one builds. *)
Lemma define_in_order (ps : properties_of) :
  own_property_order (JsMap.keys ps) ->
  fold_left (fun acc p => CreateDataProperty (fst p) (snd p) acc) ps [] = ps.
Proof.
  intros Ho. apply (fold_in_order CreateDataProperty ps); [|exact Ho].
  intros key value acc _. apply CreateDataProperty_last.
Qed.

Lemma contentsBlob_in_order (ps : JsMap.t Jsonable) :
  own_property_order (JsMap.keys ps) ->
  ~ In "__proto__" (JsMap.keys ps) ->
  contentsBlob ps = ps.
Proof.
  intros Ho Hproto. unfold contentsBlob.
  apply (fold_in_order assign_property ps); [|exact Ho].
  intros key value acc Hin. apply assign_property_last.
  intros ->. contradiction.
Qed.

Lemma contentsBlob_no_proto (m : JsMap.t Jsonable) :
  ~ In "__proto__" (JsMap.keys (contentsBlob m)).
Proof.
  apply get_None_not_In. unfold contentsBlob.
  rewrite fold_assign_get by reflexivity. reflexivity.
Qed.

(** Keys that are no array indices are in own-property order as soon as
    they are distinct. *)
Lemma named_keys_order (ks : list string) :
  NoDup ks -> Forall (fun k => array_index k = None) ks -> own_property_order ks.
Proof.
  induction 1 as [|k ks Hk Hnd IH]; intros Hall; simpl; [exact I|].
  inversion Hall as [|? ? Hk0 Hall']; subst. repeat split; auto.
  intros k' Hin. rewrite Forall_forall in Hall'. unfold precedes.
  now rewrite Hk0, (Hall' k' Hin).
Qed.

Lemma set_all_data_invariant {V} (P : JsMap.t V -> Prop) (Q : string * V -> Prop) :
  (forall key value m, Q (key, value) -> P m -> P (JsMap.set key value m)) ->
  forall calls (this : t V),
    Forall Q calls -> P (data this) -> P (data (set_all calls this)).
Proof.
  intros Hstep calls. induction calls as [|[key value] calls IH];
    intros this Hcalls Hthis; simpl; [exact Hthis|].
  inversion Hcalls; subst. apply IH; [assumption|].
  unfold state_after. rewrite set_spec. simpl. auto.
Qed.

Lemma set_all_NoDup {V} (calls : list (string * V)) :
  NoDup (JsMap.keys (data (set_all calls create))).
Proof.
  apply (set_all_data_invariant (fun m => NoDup (JsMap.keys m)) (fun _ => True)).
  - intros key value m _. apply JsMap_set_NoDup.
  - apply Forall_forall. auto.
  - constructor.
Qed.

Lemma set_all_Forall {V} (Q : string * V -> Prop) (calls : list (string * V)) :
  Forall Q calls -> Forall Q (data (set_all calls create)).
Proof.
  intros H. apply (set_all_data_invariant (Forall Q) Q); [|exact H|constructor].
  intros key value m Hq Hm. now apply JsMap_set_Forall.
Qed.
End Extras.

Section Reload.
Context {NC : NumberCodec} {laws : NumberCodecLaws NC}.

(** The store that load builds from the snapshot of [this] holds the
    properties of the object literal of [snapshot], in their order. *)
Lemma reload_data (this : t Jsonable) :
  Forall portable (data this) ->
  exists tree,
    snapshot this = (Normal tree, this)
    /\ loadCore "" (storage_holding tree) create
       = (Normal tt, {| data := contentsBlob (data this); isDirty := false |}).
Proof.
  intros Hport.
  pose proof (contentsBlob_Forall portable _ Hport) as Hblob.
  set (blob := contentsBlob (data this)) in *.
  assert (Hvalues : Forall (fun p => is_value (snd p)) blob).
  { eapply Forall_impl; [|exact Hblob]. intros p (_ & _ & H). exact H. }
  assert (Hvalid : Utf8.valid (JSON_stringify (JObject blob)) = true).
  { apply valid_stringify. simpl. apply forallb_forall. intros p Hp.
    rewrite Forall_forall in Hblob. destruct (Hblob p Hp) as (H1 & H2 & _).
    now rewrite H1, H2. }
  eexists. split; [apply snapshot_shape|].
  rewrite loadCore_unfold. cbn [storage_holding read tree_entries blob_at].
  change (String.eqb snapshotFileName "header") with true. cbv iota.
  cbn [contents]. fold blob.
  rewrite fromBase64ToUtf8_toBase64 by exact Hvalid.
  rewrite JSON_parse_stringify. cbn [normalize Object_entries].
  fold (define_all blob []).
  rewrite define_all_values by exact Hvalues.
  rewrite define_in_order by apply contentsBlob_order.
  rewrite for_of_data_set. cbn [data create isDirty].
  rewrite fold_set_fresh; [reflexivity | apply contentsBlob_NoDup |].
  intros k _ [].
Qed.

(** X1: snapshot a store that [set] calls built, load the blob into a new
    store: the new store returns for every key what the old one returns,
    except for the key "__proto__", for which it returns undefined. *)
Theorem X1_reload_answers_get (calls : list (string * Jsonable)) :
  Forall portable calls ->
  let M := set_all calls create in
  exists tree loaded,
    snapshot M = (Normal tree, M)
    /\ loadCore "" (storage_holding tree) create = (Normal tt, loaded)
    /\ forall k,
         result (get k) loaded
         = if String.eqb k "__proto__" then Normal None else result (get k) M.
Proof.
  intros Hcalls M. apply snapshot_load_roundtrip.
  - apply set_all_NoDup.
  - now apply set_all_Forall.
Qed.

(** X4: the persisted form is stable.  The store loaded from a snapshot
    holds its entries in own-property order, and its own snapshot is the very
    tree it was loaded from. *)
Theorem X4_snapshot_of_reloaded_store (this : t Jsonable) :
  Forall portable (data this) ->
  exists tree loaded,
    snapshot this = (Normal tree, this)
    /\ loadCore "" (storage_holding tree) create = (Normal tt, loaded)
    /\ own_property_order (JsMap.keys (data loaded))
    /\ snapshot loaded = (Normal tree, loaded).
Proof.
  intros Hport. destruct (reload_data this Hport) as (tree & Hsnap & Hload).
  exists tree. eexists. split; [exact Hsnap|]. split; [exact Hload|].
  cbn [data]. split; [apply contentsBlob_order|].
  rewrite snapshot_shape in Hsnap. injection Hsnap as <-.
  rewrite snapshot_shape. cbn [data].
  rewrite (contentsBlob_in_order (contentsBlob (data this)));
    [reflexivity | apply contentsBlob_order | apply contentsBlob_no_proto].
Qed.

End Reload.

(** X2: for a store that [set] calls built, the blob of the snapshot is the
    text of an object that has every key of the mapping but "__proto__",
    each once and with the value of the mapping, array indices ascending
    before all other keys. *)
Theorem X2_blob_object :
  forall (NC : NumberCodec) (calls : list (string * Jsonable)),
    let M := set_all calls create in
    exists properties,
      blob_contents (result snapshot M)
      = Some (JSON_stringify (JObject properties))
      /\ own_property_order (JsMap.keys properties)
      /\ ~ In "__proto__" (JsMap.keys properties)
      /\ forall k,
           JsMap.get k properties
           = if String.eqb k "__proto__" then None else JsMap.get k (data M).
Proof.
  intros NC calls M. exists (contentsBlob (data M)).
  split; [reflexivity|]. split; [apply contentsBlob_order|].
  split; [apply contentsBlob_no_proto|].
  intros k. apply contentsBlob_get. apply set_all_NoDup.
Qed.

(** X3: when no key is an array index or "__proto__", the blob lists the
    entries in the order in which their keys were first set. *)
Theorem X3_blob_in_insertion_order :
  forall (NC : NumberCodec) (calls : list (string * Jsonable)),
    Forall (fun p => array_index (fst p) = None /\ fst p <> "__proto__") calls ->
    let M := set_all calls create in
    blob_contents (result snapshot M)
    = Some (JSON_stringify (JObject (data M))).
Proof.
  intros NC calls Hcalls M.
  pose proof (set_all_Forall _ calls Hcalls) as Hdata. fold M in Hdata.
  change (Some (JSON_stringify (JObject (contentsBlob (data M))))
          = Some (JSON_stringify (JObject (data M)))).
  rewrite contentsBlob_in_order; [reflexivity | |].
  - apply named_keys_order; [apply set_all_NoDup|].
    unfold JsMap.keys. apply Forall_map.
    eapply Forall_impl; [|exact Hdata]. now intros p [H _].
  - unfold JsMap.keys. rewrite in_map_iff. intros ([k v] & E & Hin).
    rewrite Forall_forall in Hdata. destruct (Hdata _ Hin) as [_ H].
    now apply H.
Qed.

(** X5: load is idempotent.  A second load from the same storage ends as the
    first did and leaves the store as the first left it. *)
Theorem X5_load_twice :
  forall (NC : NumberCodec) (branchId : string) (storage : IObjectStorageService)
         (this : t Jsonable),
    loadCore branchId storage (state_after (loadCore branchId storage) this)
    = (result (loadCore branchId storage) this,
       state_after (loadCore branchId storage) this).
Proof.
  intros NC branchId storage this. unfold result, state_after.
  rewrite !loadCore_unfold.
  destruct (read storage snapshotFileName) as [raw|e]; [|reflexivity].
  destruct (fromBase64ToUtf8 raw) as [text|e]; [|reflexivity].
  destruct (JSON_parse text) as [parsed|e] eqn:Hparse; [|reflexivity].
  destruct (Object_entries parsed) as [pairs|e] eqn:Hentries; [|reflexivity].
  pose proof (parsed_entries_NoDup _ _ _ Hparse Hentries) as Hnd.
  rewrite !for_of_data_set. cbn [fst snd data isDirty].
  now rewrite (fold_set_twice pairs (data this) Hnd).
Qed.

(** X6: the last write wins and leaves no trace of the earlier one: [set] of
    a key twice in a row leaves the store, the position of the key included,
    as the second [set] alone would. *)
Theorem X6_set_overwrites :
  forall (V : Type) (key : string) (v1 v2 : V) (this : t V),
    state_after (set key v2) (state_after (set key v1) this)
    = state_after (set key v2) this.
Proof.
  intros V key v1 v2 this. unfold state_after. rewrite !set_spec.
  cbn [snd data]. now rewrite JsMap_set_set.
Qed.

(** X1 at a store with an array-index key, a nested array and the key
    "__proto__". *)
Lemma X1_witness :
  let M := set_all [("b", JNumber 1%Z); ("__proto__", JNull);
                    ("10", JArray [JString "x"; JBool true])] create in
  exists tree loaded,
    snapshot M = (Normal tree, M)
    /\ loadCore "" (storage_holding tree) create = (Normal tt, loaded)
    /\ forall k,
         result (get k) loaded
         = if String.eqb k "__proto__" then Normal None else result (get k) M.
Proof.
  apply (@X1_reload_answers_get IntegerCodec IntegerCodec_laws).
  repeat constructor.
Defined.

(** X3 at a store whose keys were set in the order name, count, name. *)
Lemma X3_witness :
  let M := set_all [("name", JString "a"); ("count", JNumber 3%Z);
                    ("name", JString "b")] create in
  blob_contents (result snapshot M)
  = Some (JSON_stringify (JObject (data M))).
Proof.
  apply (X3_blob_in_insertion_order IntegerCodec).
  repeat constructor; discriminate.
Defined.

(** X4 at a store whose Map lists the key "b" before the array index "7". *)
Lemma X4_witness :
  let this := {| data := [("b", JNumber 1%Z); ("7", JString "x")];
                 isDirty := true |} in
  exists tree loaded,
    snapshot this = (Normal tree, this)
    /\ loadCore "" (storage_holding tree) create = (Normal tt, loaded)
    /\ own_property_order (JsMap.keys (data loaded))
    /\ snapshot loaded = (Normal tree, loaded).
Proof.
  apply (@X4_snapshot_of_reloaded_store IntegerCodec IntegerCodec_laws).
  repeat constructor.
Defined.

